(** * The double-helix visualisation of [src/App.jsx]

    A shallow embedding of the components of [src/App.jsx] that carry
    computation: [DNAHelix] (the geometry loop inside [useMemo] and the
    per-rung mesh placement), [Rotator] (the per-frame spin inside a
    statically tilted group), [ProjectCard] (what a card shows about the
    repository), [Portfolio] (which card is open) and [FooterRenderTime]
    (the render time and its text).

    Numbers.  [DNAHelix] and [Rotator] are modelled over two models of a
    JavaScript number.

    - The exact model, [JS.number]: an exact real or one of the three
      special values of IEEE arithmetic.  Every finite operation is the
      exact operation on reals; division by zero and the arithmetic of
      the infinities and of NaN follow IEEE 754.  It carries the
      properties in which no rounding takes part: that the builder
      validates nothing and the mesh assembler has no special case, the
      shape of what they return, what zero and NaN arguments lead to,
      the nesting of the two groups of [Rotator], and the order of the
      heights along a strand.

    - The binary64 model, [Binary64.number]: the doubles of the
      language, as the primitive floats of the prover, every operation
      rounded to nearest, ties to even, the loop counter included.  It
      carries the properties about the values the program computes: how
      many samples and rungs there are, where they are, and the angle
      [Rotator] accumulates.  [Math.cos] and [Math.sin], which the
      language leaves to the engine, are parameters of this model.

    Loops and arrays.  The [for] loop of [DNAHelix] runs on fuel: its
    bound is a number, and it need not end.  In the exact model the
    arrays are lists without a bound, and the loop does not end when its
    bound is [Infinity].  The binary64 model carries the largest length
    of an array, [2^32 - 1]: [push] on a full array throws a RangeError,
    which is how the loop ends when its bound is that large.

    Strings.  A string is a string of bytes; the only non-ASCII text
    that matters, the dash of the footer, is compared as a whole.

    Left out: the two tube meshes of the strands, whose arguments are
    constants; the cache of [useMemo], whose callback is a function of
    its dependencies; and the components of the page that only lay out
    text ([MonoLabel], [SectionHeader], [DomainCard], [TimelineItem],
    [SkillBadge], [ArchitectureDiagram]). *)

From Stdlib Require Import Floats.
From Stdlib Require Import String Ascii.
From Stdlib Require Import Reals Lra Lia List ZArith Bool Arith.
Import ListNotations.

Set Warnings "-inexact-float".

Local Open Scope R_scope.

(* ================================================================== *)
(** ** JavaScript numbers *)
(* ================================================================== *)

Module JS.

Inductive number : Type :=
| Num (r : R)
| PosInf
| NegInf
| NaN.

(** Sign of a real, as a three-way comparison with zero. *)
Definition sgn (r : R) : comparison :=
  match total_order_T r 0 with
  | inleft (left _) => Lt
  | inleft (right _) => Eq
  | inright _ => Gt
  end.

(** Sign of a number; [None] for NaN. *)
Definition nsgn (a : number) : option comparison :=
  match a with
  | Num r => Some (sgn r)
  | PosInf => Some Gt
  | NegInf => Some Lt
  | NaN => None
  end.

(** The infinity of a given sign; a zero sign stands for the undefined
    forms [0 * Infinity] and [0 / 0]. *)
Definition inf_of (c : comparison) : number :=
  match c with
  | Gt => PosInf
  | Lt => NegInf
  | Eq => NaN
  end.

Definition sgn_mul (c d : comparison) : comparison :=
  match c, d with
  | Eq, _ | _, Eq => Eq
  | Gt, Gt | Lt, Lt => Gt
  | Gt, Lt | Lt, Gt => Lt
  end.

Definition neg (a : number) : number :=
  match a with
  | Num r => Num (- r)
  | PosInf => NegInf
  | NegInf => PosInf
  | NaN => NaN
  end.

Definition add (a b : number) : number :=
  match a, b with
  | NaN, _ | _, NaN => NaN
  | Num x, Num y => Num (x + y)
  | PosInf, NegInf | NegInf, PosInf => NaN
  | PosInf, _ | _, PosInf => PosInf
  | NegInf, _ | _, NegInf => NegInf
  end.

Definition sub (a b : number) : number := add a (neg b).

Definition mul (a b : number) : number :=
  match a, b with
  | Num x, Num y => Num (x * y)
  | _, _ =>
      match nsgn a, nsgn b with
      | Some c, Some d => inf_of (sgn_mul c d)
      | _, _ => NaN
      end
  end.

Definition div (a b : number) : number :=
  match a, b with
  | NaN, _ | _, NaN => NaN
  | Num x, Num y =>
      match sgn y with
      | Eq => inf_of (sgn x)
      | _ => Num (x / y)
      end
  | Num _, _ => Num 0
  | _, Num y =>
      match sgn y, a with
      | Lt, _ => neg a
      | _, _ => a
      end
  | _, _ => NaN
  end.

(** [a <= b]; every comparison with NaN is false. *)
Definition le (a b : number) : bool :=
  match a, b with
  | NaN, _ | _, NaN => false
  | Num x, Num y => if Rle_dec x y then true else false
  | NegInf, _ | _, PosInf => true
  | _, _ => false
  end.


(** [a || b] on numbers: [a] unless it is falsy (zero or NaN). *)
Definition or_else (a b : number) : number :=
  match a with
  | NaN => b
  | Num x => match sgn x with Eq => b | _ => a end
  | _ => a
  end.

(** A loop counter, which holds a non-negative integer, as a number. *)
Definition ofNat (n : nat) : number := Num (INR n).

Module Math.
Definition PI : number := Num Rtrigo1.PI.

Definition cos (a : number) : number :=
  match a with Num r => Num (Rtrigo_def.cos r) | _ => NaN end.

Definition sin (a : number) : number :=
  match a with Num r => Num (Rtrigo_def.sin r) | _ => NaN end.

Definition sqrt (a : number) : number :=
  match a with
  | Num r => match sgn r with Lt => NaN | _ => Num (R_sqrt.sqrt r) end
  | PosInf => PosInf
  | _ => NaN
  end.
End Math.

(** Abrupt and normal completion of a call. *)
Inductive error : Type :=
| InvalidConfiguration
| DegenerateRung.

Inductive completion (A : Type) : Type :=
| Return (a : A)
| Throw (e : error).

Arguments Return {A} a.
Arguments Throw {A} e.

End JS.

Import JS.

Declare Scope js_scope.
Delimit Scope js_scope with js.
Bind Scope js_scope with number.
Infix "+" := add : js_scope.
Infix "-" := sub : js_scope.
Infix "*" := mul : js_scope.
Infix "/" := div : js_scope.
Infix "<=?" := le : js_scope.
Infix "<?" := lt : js_scope.

(* ================================================================== *)
(** ** The part of three.js the components use *)
(* ================================================================== *)

Module THREE.

Record Vector3 : Type := mkVector3 { x : number; y : number; z : number }.

(** [new THREE.Vector3().addVectors(a, b)] *)
Definition addVectors (a b : Vector3) : Vector3 :=
  mkVector3 (x a + x b)%js (y a + y b)%js (z a + z b)%js.

(** [new THREE.Vector3().subVectors(a, b)] *)
Definition subVectors (a b : Vector3) : Vector3 :=
  mkVector3 (x a - x b)%js (y a - y b)%js (z a - z b)%js.

Definition multiplyScalar (v : Vector3) (s : number) : Vector3 :=
  mkVector3 (x v * s)%js (y v * s)%js (z v * s)%js.

Definition dot (a b : Vector3) : number :=
  (x a * x b + y a * y b + z a * z b)%js.

(** [v.length()]: the Euclidean norm. *)
Definition length (v : Vector3) : number :=
  Math.sqrt (x v * x v + y v * y v + z v * z v)%js.

Definition divideScalar (v : Vector3) (s : number) : Vector3 :=
  multiplyScalar v (Num 1 / s)%js.

(** [v.normalize()] divides by [v.length() || 1], so the zero vector is
    left as it is. *)
Definition normalize (v : Vector3) : Vector3 :=
  divideScalar v (or_else (length v) (Num 1)).

Record Euler : Type := mkEuler { ex : number; ey : number; ez : number }.

(** [new THREE.Quaternion()] followed by [setFromUnitVectors(vFrom, vTo)].
    No property below depends on the four components the library
    derives, so the quaternion is kept as the call that builds it. *)
Inductive Quaternion : Type :=
| setFromUnitVectors (vFrom vTo : Vector3).

(** [new THREE.CatmullRomCurve3(points)] keeps the control points; the
    spline through them is evaluated by the tube geometry, later. *)
Record CatmullRomCurve3 : Type := mkCatmullRomCurve3 { points : list Vector3 }.

End THREE.

Import THREE.

(* ================================================================== *)
(** ** [DNAHelix]: the geometry loop *)
(* ================================================================== *)

Module DNAHelix.

(** The props of the component, with the defaults of its parameter
    list: [({ turns = 3, radius = 2, height = 15 })]. *)
Record Props : Type :=
  mkProps { p_turns : option number; p_radius : option number; p_height : option number }.

Record Config : Type := mkConfig { turns : number; radius : number; height : number }.

Definition withDefaults (p : Props) : Config :=
  mkConfig (match p_turns p with Some v => v | None => Num 3 end)
           (match p_radius p with Some v => v | None => Num 2 end)
           (match p_height p with Some v => v | None => Num 15 end).

Definition pointsPerTurn : number := Num 40.

(** [{ start: p1, end: p2 }] *)
Record Rung : Type := mkRung { start : Vector3; end_ : Vector3 }.

(** The variables the loop updates: the counter and the three arrays. *)
Record LoopState : Type := mkLoopState {
  i : nat;
  b1Points : list Vector3;
  b2Points : list Vector3;
  rungData : list Rung
}.

(** What [useMemo] returns. *)
Record Geometry : Type := mkGeometry {
  backbone1Curve : CatmullRomCurve3;
  backbone2Curve : CatmullRomCurve3;
  rungs : list Rung
}.

Section Build.

Variable c : Config.

Definition totalPoints : number := (turns c * pointsPerTurn)%js.
Definition heightStep : number := (height c / totalPoints)%js.
Definition angleStep : number := ((Math.PI * Num 2) / pointsPerTurn)%js.

Definition angle (i : nat) : number := (ofNat i * angleStep)%js.

Definition yAt (i : nat) : number :=
  (ofNat i * heightStep - height c / Num 2)%js.

Definition p1 (i : nat) : Vector3 :=
  mkVector3 (Math.cos (angle i) * radius c)%js
            (yAt i)
            (Math.sin (angle i) * radius c)%js.

Definition p2 (i : nat) : Vector3 :=
  mkVector3 (Math.cos (angle i + Math.PI) * radius c)%js
            (yAt i)
            (Math.sin (angle i + Math.PI) * radius c)%js.

(** One pass through the body of the [for] loop, followed by [i++]. *)
Definition body (st : LoopState) : LoopState :=
  let k := i st in
  mkLoopState (S k)
              (b1Points st ++ [p1 k])
              (b2Points st ++ [p2 k])
              (if (k mod 4 =? 0)%nat
               then rungData st ++ [mkRung (p1 k) (p2 k)]
               else rungData st).

(** [for (let i = 0; i <= totalPoints; i++) body].  Each unit of fuel
    pays for one evaluation of the loop condition; [None] means that
    the fuel ran out while the condition still held. *)
Fixpoint loop (fuel : nat) (st : LoopState) : option LoopState :=
  match fuel with
  | O => None
  | S fuel' =>
      if (ofNat (i st) <=? totalPoints)%js
      then loop fuel' (body st)
      else Some st
  end.

Definition init : LoopState := mkLoopState 0 [] [] [].

(** The callback given to [useMemo].  It contains no [throw], and no
    operation it performs on numbers raises; the arrays of this model
    are lists, which always take one more element. *)
Definition build (fuel : nat) : option (completion Geometry) :=
  match loop fuel init with
  | None => None
  | Some st =>
      Some (Return (mkGeometry (mkCatmullRomCurve3 (b1Points st))
                               (mkCatmullRomCurve3 (b2Points st))
                               (rungData st)))
  end.

End Build.

(** The component up to its geometry: the props are destructured with
    their defaults, and the callback runs on the result. *)
Definition geometryOf (p : Props) (fuel : nat) : option (completion Geometry) :=
  build (withDefaults p) fuel.

(** *** The meshes of the rungs *)

(** [<cylinderGeometry args={[radiusTop, radiusBottom, height, radialSegments]} />] *)
Record CylinderArgs : Type := mkCylinderArgs {
  radiusTop : number;
  radiusBottom : number;
  cylHeight : number;
  radialSegments : nat
}.

(** [<mesh position={mid} quaternion={orientation}> <cylinderGeometry .../> </mesh>] *)
Record Mesh : Type := mkMesh {
  position : Vector3;
  quaternion : Quaternion;
  geometry : CylinderArgs
}.

(** The callback of [rungs.map].  [length] is read before
    [direction.normalize()] rescales [direction] in place. *)
Definition rungMesh (rung : Rung) : Mesh :=
  let mid := multiplyScalar (addVectors (start rung) (end_ rung)) (Num 0.5) in
  let direction := subVectors (end_ rung) (start rung) in
  let length := THREE.length direction in
  let orientation := setFromUnitVectors (mkVector3 (Num 0) (Num 1) (Num 0))
                                        (normalize direction) in
  mkMesh mid orientation (mkCylinderArgs (Num 0.08) (Num 0.08) length 8).

Definition rungMeshes (g : Geometry) : list Mesh := map rungMesh (rungs g).

End DNAHelix.

(* ================================================================== *)
(** ** [Rotator]: a spinning group inside a tilted group *)
(* ================================================================== *)

Module Rotator.

Section Scene.

(** What the caller nests inside [<Rotator>]. *)
Variable Children : Type.

(** The objects of the scene graph: a [<group>] with its rotation and
    its children, or one of the caller's elements. *)
#[local] Unset Elimination Schemes.
Inductive Node : Type :=
| group (rotation : Euler) (children : list Node)
| element (e : Children).
#[local] Set Elimination Schemes.

(** A group given no [rotation] prop has the rotation of a fresh
    [Object3D]. *)
Definition noRotation : Euler := mkEuler (Num 0) (Num 0) (Num 0).

(** The JSX the component returns: the outer group carries the tilt,
    the inner group is the one [ref={groupRef}] points to. *)
Definition render (children : list Node) : Node :=
  group (mkEuler (Num 0) (Num 0) (Math.PI / Num 6)%js)
        [group noRotation children].

(** [groupRef.current]: the inner group of a mounted [Rotator], and
    nothing as long as no such group is there. *)
Definition current (scene : Node) : option Node :=
  match scene with
  | group _ [group _ _ as inner] => Some inner
  | _ => None
  end.

(** Writing through the reference updates the inner group in place. *)
Definition setCurrent (scene inner : Node) : Node :=
  match scene with
  | group tilt [group _ _] => group tilt [inner]
  | _ => scene
  end.

(** The callback given to [useFrame]:
    [if (groupRef.current) groupRef.current.rotation.y -= delta * 0.5]. *)
Definition onFrame (scene : Node) (delta : number) : Node :=
  match current scene with
  | Some (group r children) =>
      setCurrent scene
        (group (mkEuler (ex r) (ey r - delta * Num 0.5)%js (ez r)) children)
  | _ => scene
  end.

(** One call of the callback per frame, in order. *)
Definition frames (scene : Node) (deltas : list number) : Node :=
  fold_left onFrame deltas scene.

Definition rotationOf (n : Node) : option Euler :=
  match n with
  | group r _ => Some r
  | element _ => None
  end.

(** The spin angle: [groupRef.current.rotation.y]. *)
Definition spin (scene : Node) : option number :=
  match current scene with
  | Some inner => option_map ey (rotationOf inner)
  | None => None
  end.

End Scene.

Arguments group {Children} rotation children.
Arguments element {Children} e.
Arguments render {Children} children.
Arguments current {Children} scene.
Arguments setCurrent {Children} scene inner.
Arguments onFrame {Children} scene delta.
Arguments frames {Children} scene deltas.
Arguments rotationOf {Children} n.
Arguments spin {Children} scene.

End Rotator.

(* ================================================================== *)
(** ** The binary64 model *)
(* ================================================================== *)

Module Binary64.

Local Open Scope float_scope.

(** A JavaScript number as the engine holds it: an IEEE 754 binary64
    value.  [+], [-], [*], [/], [Math.sqrt] and the comparisons are the
    operations of the primitive floats, rounded to nearest, ties to
    even. *)
Definition number : Type := float.

Bind Scope float_scope with number.

(** [a % b === 0].  The remainder of two doubles is computed without
    rounding, so it is zero exactly when [b] divides [a]: the two
    mantissas are brought to the smaller exponent and divided as
    integers. *)
Definition remIsZero (a b : number) : bool :=
  match Prim2SF a, Prim2SF b with
  | S754_zero _, (S754_finite _ _ _ | S754_infinity _) => true
  | S754_finite _ _ _, S754_infinity _ => false
  | S754_finite _ ma ea, S754_finite _ mb eb =>
      let e := Z.min ea eb in
      ((Zpos ma * 2 ^ (ea - e)) mod (Zpos mb * 2 ^ (eb - e)) =? 0)%Z
  | _, _ => false
  end.

(** [a || b] on numbers: [a] unless it is falsy (a zero or NaN). *)
Definition or_else (a b : number) : number :=
  if (a =? 0) || is_nan a then b else a.

(** The largest integer not above a finite double ([0] for the values
    that are not finite). *)
Definition floorZ (a : number) : Z :=
  match Prim2SF a with
  | S754_finite s m e => Z.shiftl (cond_Zopp s (Zpos m)) e
  | _ => 0%Z
  end.

(** The one exception these components can raise, and the completion
    of a step: normal, with a value, or abrupt. *)
Inductive exception : Type := RangeError.

Inductive completion (A : Type) : Type :=
| Return (a : A)
| Throw (e : exception).

Arguments Return {A} a.
Arguments Throw {A} e.

Definition bind {A B : Type} (m : completion A) (f : A -> completion B) : completion B :=
  match m with
  | Return a => f a
  | Throw e => Throw e
  end.

Notation "x <- m ;; f" := (bind m (fun x => f))
  (at level 61, m at next level, right associativity).

(** The largest length an array can have. *)
Definition maxArrayLength : Z := (2 ^ 32 - 1)%Z.

(** [a.push(v)].  On an array of the largest length the new length is
    not an array length, and setting it throws a RangeError. *)
Definition push {A : Type} (a : list A) (v : A) : completion (list A) :=
  if (Z.of_nat (List.length a) <? maxArrayLength)%Z
  then Return (a ++ [v])
  else Throw RangeError.

Module Math.

(** [Math.PI], the double nearest to pi: 3.141592653589793. *)
Definition PI : number := 0x1.921fb54442d18p+1.

(** [Math.cos] and [Math.sin] are implementation-approximated: the
    language fixes their values at zeros, infinities and NaN only.  An
    engine's pair of functions is a parameter of the model. *)
Record Trig : Type := mkTrig { cos : number -> number; sin : number -> number }.

Definition sqrt (a : number) : number := PrimFloat.sqrt a.

End Math.

Module THREE.

Record Vector3 : Type := mkVector3 { x : number; y : number; z : number }.

Definition addVectors (a b : Vector3) : Vector3 :=
  mkVector3 (x a + x b) (y a + y b) (z a + z b).

Definition subVectors (a b : Vector3) : Vector3 :=
  mkVector3 (x a - x b) (y a - y b) (z a - z b).

Definition multiplyScalar (v : Vector3) (s : number) : Vector3 :=
  mkVector3 (x v * s) (y v * s) (z v * s).

Definition length (v : Vector3) : number :=
  Math.sqrt (x v * x v + y v * y v + z v * z v).

Definition divideScalar (v : Vector3) (s : number) : Vector3 :=
  multiplyScalar v (1 / s).

Definition normalize (v : Vector3) : Vector3 :=
  divideScalar v (or_else (length v) 1).

Record Euler : Type := mkEuler { ex : number; ey : number; ez : number }.

Inductive Quaternion : Type :=
| setFromUnitVectors (vFrom vTo : Vector3).

Record CatmullRomCurve3 : Type := mkCatmullRomCurve3 { points : list Vector3 }.

End THREE.

Import THREE.

Module DNAHelix.

Record Config : Type := mkConfig { turns : number; radius : number; height : number }.

Definition pointsPerTurn : number := 40.

Record Rung : Type := mkRung { start : Vector3; end_ : Vector3 }.

(** The variables the loop updates.  The counter is a double, as every
    number of the language: [i++] adds one and rounds. *)
Record LoopState : Type := mkLoopState {
  i : number;
  b1Points : list Vector3;
  b2Points : list Vector3;
  rungData : list Rung
}.

Record Geometry : Type := mkGeometry {
  backbone1Curve : CatmullRomCurve3;
  backbone2Curve : CatmullRomCurve3;
  rungs : list Rung
}.

Section Build.

Variable M : Math.Trig.
Variable c : Config.

Definition totalPoints : number := turns c * pointsPerTurn.
Definition heightStep : number := height c / totalPoints.
Definition angleStep : number := (Math.PI * 2) / pointsPerTurn.

Definition angle (i : number) : number := i * angleStep.

Definition yAt (i : number) : number := i * heightStep - height c / 2.

Definition p1 (i : number) : Vector3 :=
  mkVector3 (Math.cos M (angle i) * radius c)
            (yAt i)
            (Math.sin M (angle i) * radius c).

Definition p2 (i : number) : Vector3 :=
  mkVector3 (Math.cos M (angle i + Math.PI) * radius c)
            (yAt i)
            (Math.sin M (angle i + Math.PI) * radius c).

(** One pass through the body of the [for] loop, followed by [i++].
    The three [push] calls are the steps that can fail. *)
Definition body (st : LoopState) : completion LoopState :=
  let k := i st in
  b1 <- push (b1Points st) (p1 k);;
  b2 <- push (b2Points st) (p2 k);;
  rs <- (if remIsZero k 4
         then push (rungData st) (mkRung (p1 k) (p2 k))
         else Return (rungData st));;
  Return (mkLoopState (k + 1) b1 b2 rs).

(** [for (let i = 0; i <= totalPoints; i++) body], on fuel: [None]
    means that the fuel ran out while the condition still held. *)
Fixpoint loop (fuel : nat) (st : LoopState) : option (completion LoopState) :=
  match fuel with
  | O => None
  | S fuel' =>
      if i st <=? totalPoints
      then match body st with
           | Return st' => loop fuel' st'
           | Throw e => Some (Throw e)
           end
      else Some (Return st)
  end.

Definition init : LoopState := mkLoopState 0 [] [] [].

(** The callback given to [useMemo]. *)
Definition build (fuel : nat) : option (completion Geometry) :=
  match loop fuel init with
  | None => None
  | Some r =>
      Some (st <- r;;
            Return (mkGeometry (mkCatmullRomCurve3 (b1Points st))
                               (mkCatmullRomCurve3 (b2Points st))
                               (rungData st)))
  end.

End Build.

Record CylinderArgs : Type := mkCylinderArgs {
  radiusTop : number;
  radiusBottom : number;
  cylHeight : number;
  radialSegments : nat
}.

Record Mesh : Type := mkMesh {
  position : Vector3;
  quaternion : Quaternion;
  geometry : CylinderArgs
}.

(** The callback of [rungs.map]. *)
Definition rungMesh (rung : Rung) : Mesh :=
  let mid := multiplyScalar (addVectors (start rung) (end_ rung)) 0.5 in
  let direction := subVectors (end_ rung) (start rung) in
  let length := THREE.length direction in
  let orientation := setFromUnitVectors (mkVector3 0 1 0) (normalize direction) in
  mkMesh mid orientation (mkCylinderArgs 0.08 0.08 length 8).

Definition rungMeshes (g : Geometry) : list Mesh := map rungMesh (rungs g).

End DNAHelix.

Module Rotator.

Section Scene.

Variable Children : Type.

#[local] Unset Elimination Schemes.
Inductive Node : Type :=
| group (rotation : Euler) (children : list Node)
| element (e : Children).
#[local] Set Elimination Schemes.

Definition noRotation : Euler := mkEuler 0 0 0.

Definition render (children : list Node) : Node :=
  group (mkEuler 0 0 (Math.PI / 6)) [group noRotation children].

Definition current (scene : Node) : option Node :=
  match scene with
  | group _ [group _ _ as inner] => Some inner
  | _ => None
  end.

Definition setCurrent (scene inner : Node) : Node :=
  match scene with
  | group tilt [group _ _] => group tilt [inner]
  | _ => scene
  end.

(** [if (groupRef.current) groupRef.current.rotation.y -= delta * 0.5] *)
Definition onFrame (scene : Node) (delta : number) : Node :=
  match current scene with
  | Some (group r children) =>
      setCurrent scene (group (mkEuler (ex r) (ey r - delta * 0.5) (ez r)) children)
  | _ => scene
  end.

Definition frames (scene : Node) (deltas : list number) : Node :=
  fold_left onFrame deltas scene.

Definition rotationOf (n : Node) : option Euler :=
  match n with
  | group r _ => Some r
  | element _ => None
  end.

Definition spin (scene : Node) : option number :=
  match current scene with
  | Some inner => option_map ey (rotationOf inner)
  | None => None
  end.

End Scene.

Arguments group {Children} rotation children.
Arguments element {Children} e.
Arguments render {Children} children.
Arguments current {Children} scene.
Arguments setCurrent {Children} scene inner.
Arguments onFrame {Children} scene delta.
Arguments frames {Children} scene deltas.
Arguments rotationOf {Children} n.
Arguments spin {Children} scene.

End Rotator.

(** *** Vocabulary *)

Import DNAHelix.

(** The counter after [n] passes: [n] times [i++], from [0]. *)
Definition counterAfter (n : nat) : number := Nat.iter n (fun i => i + 1) 0.

(** The variables of the loop after [n] passes. *)
Definition stateAfter (M : Math.Trig) (c : Config) (n : nat) : LoopState :=
  mkLoopState (counterAfter n)
    (map (fun k => p1 M c (counterAfter k)) (seq 0 n))
    (map (fun k => p2 M c (counterAfter k)) (seq 0 n))
    (map (fun k => mkRung (p1 M c (counterAfter k)) (p2 M c (counterAfter k)))
         (filter (fun k => remIsZero (counterAfter k) 4) (seq 0 n))).

(** The double nearest to a natural number: the number itself up to
    [2^53]. *)
Definition ofNat (n : nat) : number :=
  SF2Prim (binary_normalize prec emax (Z.of_nat n) 0 false).

(** [Number.isFinite(a)] *)
Definition finite (a : number) : bool := abs a <? infinity.

(** A strictly positive finite double. *)
Definition strictlyPositive (a : number) : Prop :=
  (0 <? a) = true /\ (a <? infinity) = true.

Definition valid (c : Config) : Prop :=
  strictlyPositive (turns c) /\ strictlyPositive (radius c) /\
  strictlyPositive (height c).

(** The builder returns [g] on [c], with the engine's [M]. *)
Definition returns (M : Math.Trig) (c : Config) (g : Geometry) : Prop :=
  exists fuel, build M c fuel = Some (Return g).

Definition strand1 (g : Geometry) : list Vector3 := points (backbone1Curve g).
Definition strand2 (g : Geometry) : list Vector3 := points (backbone2Curve g).

(** [n <= a], for an integer [n] and a double [a]. *)
Definition leInt (n : Z) (a : number) : bool :=
  match Prim2SF a with
  | S754_nan => false
  | S754_infinity s => negb s
  | _ => (n <=? floorZ a)%Z
  end.

(** How many passes the loop makes for a given bound, when it ends.
    The arrays take [2^32 - 1] elements: with a bound that large, as
    with [Infinity], the next [push] throws and the loop does not end
    normally. *)
Definition passes (bound : number) : option nat :=
  match Prim2SF bound with
  | S754_nan | S754_infinity true => Some O
  | S754_infinity false => None
  | _ =>
      if (floorZ bound <? 0)%Z then Some O
      else if (floorZ bound <? maxArrayLength)%Z
           then Some (Z.to_nat (floorZ bound + 1))
           else None
  end.

(** The geometry returned after [n] passes. *)
Definition geometryAfter (M : Math.Trig) (c : Config) (n : nat) : Geometry :=
  mkGeometry (mkCatmullRomCurve3 (b1Points (stateAfter M c n)))
             (mkCatmullRomCurve3 (b2Points (stateAfter M c n)))
             (rungData (stateAfter M c n)).

(** A rounded result that is not NaN and has the sign [s]. *)
Definition signed (s : bool) (a : spec_float) : Prop :=
  match a with
  | S754_nan => False
  | S754_zero s' | S754_infinity s' | S754_finite s' _ _ => s' = s
  end.


(** The real number a double holds, for the operations of the language
    that are defined on the value, as [toFixed] is. *)
Definition toNumber (a : number) : JS.number :=
  match Prim2SF a with
  | S754_zero _ => Num 0%R
  | S754_infinity false => PosInf
  | S754_infinity true => NegInf
  | S754_nan => JS.NaN
  | S754_finite s m e => Num (IZR (cond_Zopp s (Zpos m)) * powerRZ 2 e)%R
  end.

(** Each number of a list is below the next one. *)
Fixpoint increasing (l : list number) : bool :=
  match l with
  | a :: (b :: _) as rest => (a <? b) && increasing rest
  | _ => true
  end.

(** The double that holds the integer [n]: a 53-bit mantissa [q] and
    the exponent [E] with [q * 2^E = n]. *)
Definition holds (n : Z) (q : BinNums.positive) (E : Z) : Prop :=
  (Zpos (Pos.size q) = 53 /\ E = Z.log2 n - 52 /\ Zpos q * 2 ^ (E + 52) = n * 2 ^ 52)%Z.

(** The configuration of the examples: so short a helix that the loop
    makes one pass, with [i = 0]. *)
Definition oneSample : Config := mkConfig 0.015625 3 35.

(** Values of [Math.cos] and [Math.sin] for the examples: the two
    functions at [0], where the language fixes them, and at [Math.PI],
    where the engines return [-1] and [1.2246467991473532e-16].  At
    every other argument this table answers NaN; the examples that
    reach other arguments only count samples. *)
Definition reference : Math.Trig :=
  Math.mkTrig
    (fun a => if a =? 0 then 1 else if a =? Math.PI then -1 else nan)
    (fun a => if a =? 0 then a else if a =? Math.PI then 0x1.1a62633145c07p-53 else nan).

End Binary64.

(* ================================================================== *)
(** ** Vocabulary of the properties *)
(* ================================================================== *)

Import DNAHelix.

(** The variables of the loop after [n] passes. *)
Definition stateAfter (c : Config) (n : nat) : LoopState :=
  mkLoopState n
    (map (p1 c) (seq 0 n))
    (map (p2 c) (seq 0 n))
    (map (fun k => mkRung (p1 c k) (p2 c k))
         (filter (fun k => (k mod 4 =? 0)%nat) (seq 0 n))).

(** The geometry returned after [n] passes. *)
Definition geometryAfter (c : Config) (n : nat) : Geometry :=
  mkGeometry (mkCatmullRomCurve3 (b1Points (stateAfter c n)))
             (mkCatmullRomCurve3 (b2Points (stateAfter c n)))
             (rungData (stateAfter c n)).

(** The integer part of a non-negative real, as a natural number. *)
Definition floorNat (r : R) : nat := Z.to_nat (Int_part r).

(** How many passes the loop makes for a given bound: none when the
    condition fails at [i = 0], and no finite number when the bound is
    [Infinity]. *)
Definition passes (bound : number) : option nat :=
  match bound with
  | Num r => Some (if Rle_dec 0 r then S (floorNat r) else O)
  | PosInf => None
  | NegInf | NaN => Some O
  end.

(** A strictly positive finite number. *)
Definition positive (a : number) : Prop := exists r, a = Num r /\ 0 < r.

(** A number that is zero, negative or minus infinity. *)
Definition nonPositive (a : number) : Prop :=
  a = NegInf \/ exists r, a = Num r /\ r <= 0.

Definition valid (c : Config) : Prop :=
  positive (turns c) /\ positive (radius c) /\ positive (height c).

(** A configuration the specification calls invalid. *)
Definition invalid (c : Config) : Prop :=
  nonPositive (turns c) \/ nonPositive (radius c) \/ nonPositive (height c).

(** The builder returns [g] on [c]: some amount of fuel is enough for
    the loop to end, and [g] is what the callback then returns. *)
Definition returns (c : Config) (g : Geometry) : Prop :=
  exists fuel, build c fuel = Some (Return g).

Definition strand1 (g : Geometry) : list Vector3 := points (backbone1Curve g).
Definition strand2 (g : Geometry) : list Vector3 := points (backbone2Curve g).

(** A configuration of three finite numbers. *)
Definition finite (t r h : R) : Config := mkConfig (Num t) (Num r) (Num h).

(** The angle and the height of sample [k] of a finite configuration,
    as reals. *)
Definition thetaR (k : nat) : R := INR k * (PI * 2 / 40).

(** [<DNAHelix turns={3} height={35} radius={3} />], the one use of the
    component, in [SystemIntegrationViz]. *)
Definition callSite : Props :=
  mkProps (Some (Num 3)) (Some (Num 3)) (Some (Num 35)).

(** Quotient and remainder of a division by four, for [lia]. *)
Ltac euclid4 e :=
  pose proof (Nat.div_mod_eq e 4);
  pose proof (Nat.mod_upper_bound e 4 ltac:(discriminate)).

(* ================================================================== *)
(** ** Strings, and [Number.prototype.toFixed] *)
(* ================================================================== *)

Module Str.

(** A string in a condition: every string but the empty one is truthy. *)
Definition truthy (s : string) : bool := negb (String.eqb s "").

(** The first [n] characters of a string, and the rest. *)
Fixpoint take (n : nat) (s : string) : string :=
  match n, s with
  | S n', String ch s' => String ch (take n' s')
  | _, _ => EmptyString
  end.

Fixpoint drop (n : nat) (s : string) : string :=
  match n, s with
  | S n', String _ s' => drop n' s'
  | _, _ => s
  end.

Fixpoint zeros (n : nat) : string :=
  match n with
  | O => EmptyString
  | S n' => String "0" (zeros n')
  end.

(** The character of a decimal digit. *)
Definition digit (d : nat) : ascii := ascii_of_nat (48 + d).

(** The decimal representation of a natural number, most significant
    digit first and without leading zeros; the fuel bounds the number
    of digits. *)
Fixpoint digitsFuel (fuel n : nat) : string :=
  match fuel with
  | O => EmptyString
  | S fuel' =>
      if (n <? 10)%nat then String (digit n) EmptyString
      else (digitsFuel fuel' (n / 10) ++ String (digit (n mod 10)) EmptyString)%string
  end.

Definition digits (n : nat) : string := digitsFuel (S n) n.

Section ToFixed.

(** [Number::toString] on the finite values of magnitude [10^21] and
    more, which [toFixed] hands over to it: it prints the shortest
    digits that identify a double, and is left open here. *)
Variable toStringLarge : R -> string.

(** [x.toFixed(2)].  With [n] the integer nearest to [100 * x], the
    larger one on a tie, the digits of [n] are padded with zeros to
    three characters at least and a point is put before the last two. *)
Definition toFixed2 (x : number) : string :=
  match x with
  | NaN => "NaN"
  | PosInf => "Infinity"
  | NegInf => "-Infinity"
  | Num r =>
      let s := if Rlt_dec r 0 then "-" else "" in
      let r := if Rlt_dec r 0 then - r else r in
      let m :=
        if Rle_dec (10 ^ 21) r then toStringLarge r
        else
          let n := floorNat (r * 100 + / 2) in
          let m := digits n in
          let k := String.length m in
          let m := if (k <=? 2)%nat then zeros (2 + 1 - k) ++ m else m in
          let k := if (k <=? 2)%nat then (2 + 1)%nat else k in
          take (k - 2) m ++ "." ++ drop (k - 2) m
      in
      s ++ m
  end%string.

End ToFixed.

End Str.

(* ================================================================== *)
(** ** [FooterRenderTime] *)
(* ================================================================== *)

Module FooterRenderTime.

Section Footer.

Variable toStringLarge : R -> string.

(** [useState(null)] *)
Definition initialRenderTime : option string := None.

(** The callback given to [requestAnimationFrame]: the state becomes
    [(end - pageRenderStart).toFixed(2)], both times being readings of
    [performance.now()], which are doubles: the difference is rounded,
    and [toFixed] prints the value of the rounded difference. *)
Definition onAnimationFrame (pageRenderStart end_ : Binary64.number) : option string :=
  Some (Str.toFixed2 toStringLarge
          (Binary64.toNumber (end_ - pageRenderStart)%float)).

(** The text of the [<span>]:
    [RENDER_TIME: {renderTime ? `${renderTime}ms` : "—"}]. *)
Definition text (renderTime : option string) : string :=
  ("RENDER_TIME: " ++
   match renderTime with
   | Some t => if Str.truthy t then t ++ "ms" else "—"
   | None => "—"
   end)%string.

End Footer.

End FooterRenderTime.

(* ================================================================== *)
(** ** [ProjectCard] *)
(* ================================================================== *)

Module ProjectCard.

(** An entry of [features]. *)
Record Feature : Type := mkFeature { label : string; value : string }.

(** An entry of [projects], without its icon; [github_url] is [None]
    on an entry that has no such key. *)
Record Project : Type := mkProject {
  id : Z;
  title : string;
  subtitle : string;
  status : string;
  tech : list string;
  features : list Feature;
  github_url : option string
}.

Inductive GithubState : Type := private | locked | public | none.

Definition githubState (project : Project) : GithubState :=
  match github_url project with
  | Some url =>
      if String.eqb url "Private" then private
      else if String.eqb url "Private till completed" then locked
      else if Str.truthy url then public
      else none
  | None => none
  end.

Definition isPublic (g : GithubState) : bool :=
  match g with public => true | _ => false end.

Definition isLocked (g : GithubState) : bool :=
  match g with locked => true | _ => false end.

Definition isPrivate (g : GithubState) : bool :=
  match g with private => true | _ => false end.

(** The colours of the status badge. *)
Definition statusClass (project : Project) : string :=
  if String.eqb (status project) "ACTIVE"
  then "border-green-900 text-green-500 bg-green-900/10"
  else if String.eqb (status project) "RESEARCH"
  then "border-purple-900 text-purple-500 bg-purple-900/10"
  else "border-orange-900 text-orange-500 bg-orange-900/10".

(** The row at the right of the header of a card: the status badge,
    what the card says about the repository, and the chevron. *)
Inductive Control : Type :=
| StatusBadge (className text : string)
| GithubButton (url : option string)
| LockedNote
| PrivateNote
| ChevronDown
| ChevronRight.

(** [cond && element] *)
Definition when (cond : bool) (element : Control) : list Control :=
  if cond then [element] else [].

Definition controls (project : Project) (expanded : bool) : list Control :=
  [StatusBadge (statusClass project) (status project)]
  ++ when (expanded && isPublic (githubState project))
          (GithubButton (github_url project))
  ++ when (expanded && isLocked (githubState project)) LockedNote
  ++ when (expanded && isPrivate (githubState project)) PrivateNote
  ++ [if expanded then ChevronDown else ChevronRight].

(** What a click handler does besides updating state. *)
Inductive Effect : Type :=
| WindowOpen (url : option string) (target : string).

(** The click event, as far as the handlers use it. *)
Record Event : Type := mkEvent { propagationStopped : bool }.

Definition stopPropagation (e : Event) : Event := mkEvent true.

(** The [onClick] of the GitHub button:
    [e.stopPropagation(); window.open(project.github_url, "_blank")]. *)
Definition githubOnClick (project : Project) (e : Event) : Event * list Effect :=
  (stopPropagation e, [WindowOpen (github_url project) "_blank"]).

(** A click on an element inside the card: its handler runs first, and
    the [onClick] of the card runs after it unless the handler stopped
    the propagation of the event. *)
Definition clickInside {S : Type} (handler : Event -> Event * list Effect)
    (cardOnClick : S -> S) (s : S) : S * list Effect :=
  let '(e, effects) := handler (mkEvent false) in
  (if propagationStopped e then s else cardOnClick s, effects).

End ProjectCard.

(* ================================================================== *)
(** ** [Portfolio]: which project card is open *)
(* ================================================================== *)

Module Portfolio.

Import ProjectCard.

(** [useState(0)] *)
Definition initialActiveProject : Z := 0%Z.

(** [expanded={activeProject === p.id}] *)
Definition expanded (activeProject : Z) (p : Project) : bool :=
  (activeProject =? id p)%Z.

(** [onClick={() => setActiveProject(activeProject === p.id ? -1 : p.id)}] *)
Definition onClick (p : Project) (activeProject : Z) : Z :=
  if (activeProject =? id p)%Z then (-1)%Z else id p.

(** A run of clicks on cards, in order. *)
Definition clicks (activeProject : Z) (clicked : list Project) : Z :=
  fold_left (fun a p => onClick p a) clicked activeProject.

(** The cards that are open. *)
Definition openCards (projects : list Project) (activeProject : Z) : list Project :=
  filter (expanded activeProject) projects.

(** The array [projects] of the page. *)
Definition projects : list Project :=
  [ mkProject 0 "Talks - Secure Messaging App"
      "Android Privacy-first E2EE Communication Architecture"
      "ACTIVE"
      [ "Encryption Protocol (X3DH + Double Ratchet)";
        "Android (Java + Kotlin)";
        "Custom Key Management & Session Handling";
        "Encrypted SQLite Storage (AES)" ]
      [ mkFeature "Encryption" "True End-to-End";
        mkFeature "Threat Model" "Zero-Trust Server";
        mkFeature "Key Safety" "Client-Only Key Storage" ]
      (Some "Private till completed");
    mkProject 1 "AssistOne"
      "Smart Assistive Hardware for the Visually Impaired"
      "PROTOTYPE"
      [ "Real-time obstacle detection and navigation";
        "Embedded C++ firmware";
        "GPS modules with companion mobile app";
        "OpenCV-based computer vision";
        "Text-to-Speech audio feedback";
        "IoT-based device to app communication" ]
      [ mkFeature "Latency" "Instant real-time response";
        mkFeature "Tracking" "Continuous live location tracking";
        mkFeature "Assistant" "Context-aware AI guidance";
        mkFeature "Output" "Audio cues and haptic feedback" ]
      (Some "Private");
    mkProject 2 "BreatheSense"
      "AI-Based Breathing & Lung Health Analyzer"
      "RESEARCH"
      [ "Breath Gas Sensors (VOC Detection)";
        "Digital Stethoscope Audio Processing";
        "AI-Based Signal Analysis";
        "Microcontroller + Edge Processing" ]
      [ mkFeature "Breath Input" "Chemical patterns in exhaled air";
        mkFeature "Audio Input" "Lung sounds (wheeze, crackle, airflow)";
        mkFeature "Output" "Disease probability + confidence score" ]
      (Some "Private");
    mkProject 3 "Brain Tumor Segmentation"
      "End-to-End MRI-Based Tumor Analysis Pipeline"
      "RESEARCH"
      [ "Python"; "PyTorch"; "U-Net-Based Models";
        "MRI Preprocessing & Mask Handling" ]
      [ mkFeature "Primary Task" "Pixel-Level Tumor Instance Segmentation";
        mkFeature "Evaluation Metric" "Dice Score ≥ 0.90 on Validation Data";
        mkFeature "Model Output" "Tumor Mask + Severity Score" ]
      (Some "Private") ]%string.

End Portfolio.

(* ================================================================== *)
(** ** Arithmetic of finite numbers *)
(* ================================================================== *)

Lemma sgn_pos (r : R) : 0 < r -> sgn r = Gt.
Proof.
  intros Hr. unfold sgn.
  destruct (total_order_T r 0) as [[Hlt | Heq] | Hgt]; [lra | lra | reflexivity].
Qed.

Lemma sgn_zero : sgn 0 = Eq.
Proof.
  unfold sgn.
  destruct (total_order_T 0 0) as [[Hlt | Heq] | Hgt]; [lra | reflexivity | lra].
Qed.

Lemma sgn_Eq_inv (r : R) : sgn r = Eq -> r = 0.
Proof.
  unfold sgn.
  destruct (total_order_T r 0) as [[Hlt | Heq] | Hgt]; [discriminate | auto | discriminate].
Qed.

Lemma div_Num (a b : R) : b <> 0 -> (Num a / Num b)%js = Num (a / b).
Proof.
  intros Hb. unfold div.
  destruct (sgn b) eqn:E; try reflexivity.
  apply sgn_Eq_inv in E. contradiction.
Qed.

Lemma div_Num_zero (a : R) : 0 < a -> (Num a / Num 0)%js = PosInf.
Proof.
  intros Ha. unfold div. rewrite sgn_zero, (sgn_pos a Ha). reflexivity.
Qed.

Lemma le_Num_true (a b : R) : a <= b -> (Num a <=? Num b)%js = true.
Proof.
  intros H. unfold le. destruct (Rle_dec a b); [reflexivity | contradiction].
Qed.

Lemma le_Num_false (a b : R) : b < a -> (Num a <=? Num b)%js = false.
Proof.
  intros H. unfold le. destruct (Rle_dec a b); [lra | reflexivity].
Qed.

Lemma sqrt_Num (a : R) : 0 <= a -> Math.sqrt (Num a) = Num (sqrt a).
Proof.
  intros Ha. unfold Math.sqrt.
  destruct (sgn a) eqn:E; try reflexivity.
  unfold sgn in E.
  destruct (total_order_T a 0) as [[Hlt | Heq] | Hgt]; try discriminate. lra.
Qed.

Lemma Num_inj (a b : R) : Num a = Num b -> a = b.
Proof. intros H. injection H. auto. Qed.

(* ================================================================== *)
(** ** The loop of [DNAHelix] in closed form *)
(* ================================================================== *)

Lemma stateAfter_0 (c : Config) : stateAfter c 0 = init.
Proof. reflexivity. Qed.

Lemma body_stateAfter (c : Config) (n : nat) :
  body c (stateAfter c n) = stateAfter c (S n).
Proof.
  unfold body, stateAfter. cbn [i b1Points b2Points rungData].
  rewrite seq_S, !map_app, filter_app, map_app. cbn [Nat.add map filter].
  f_equal.
  destruct (n mod 4 =? 0)%nat; cbn [map]; [reflexivity | now rewrite app_nil_r].
Qed.

Lemma floorNat_bounds (r : R) :
  0 <= r -> INR (floorNat r) <= r < INR (floorNat r) + 1.
Proof.
  intros Hr. unfold floorNat.
  destruct (base_Int_part r) as [Hlo Hhi].
  assert (Hz : (0 <= Int_part r)%Z).
  { apply Z.lt_succ_r. apply lt_IZR. rewrite succ_IZR. lra. }
  rewrite INR_IZR_INZ, Z2Nat.id by exact Hz. lra.
Qed.

Lemma INR_le_floorNat (r : R) (k : nat) :
  0 <= r -> (INR k <= r <-> (k <= floorNat r)%nat).
Proof.
  intros Hr. destruct (floorNat_bounds r Hr) as [Hlo Hhi]. split.
  - intros Hk. apply Nat.lt_succ_r. apply INR_lt. rewrite S_INR. lra.
  - intros Hk. apply le_INR in Hk. lra.
Qed.

(** The loop condition [i <= bound], read against [passes]. *)
Lemma condition_passes (bound : number) (n k : nat) :
  passes bound = Some n ->
  (ofNat k <=? bound)%js = (k <? n)%nat.
Proof.
  unfold passes, ofNat. destruct bound as [r | | |]; intros H; try discriminate.
  - injection H as <-. destruct (Rle_dec 0 r) as [Hr | Hr].
    + destruct (Nat.ltb_spec k (S (floorNat r))) as [Hk | Hk].
      * apply le_Num_true. apply INR_le_floorNat; [exact Hr | lia].
      * apply le_Num_false. apply Rnot_le_lt. intros Hle.
        apply INR_le_floorNat in Hle; [lia | exact Hr].
    + cbn [Nat.ltb Nat.leb]. apply le_Num_false.
      pose proof (pos_INR k). lra.
  - injection H as <-. reflexivity.
  - injection H as <-. reflexivity.
Qed.

Lemma loop_from (c : Config) (n : nat) :
  passes (totalPoints c) = Some n ->
  forall (fuel k : nat), (k <= n)%nat -> (n - k < fuel)%nat ->
  loop c fuel (stateAfter c k) = Some (stateAfter c n).
Proof.
  intros Hn. induction fuel as [| fuel IH]; intros k Hk Hfuel; [lia |].
  cbn [loop]. change (i (stateAfter c k)) with k.
  rewrite (condition_passes _ n k Hn).
  destruct (Nat.ltb_spec k n) as [Hlt | Hge].
  - rewrite body_stateAfter. apply IH; lia.
  - replace k with n by lia. reflexivity.
Qed.

(** With enough fuel the loop ends, in the state of the closed form. *)
Lemma loop_terminates (c : Config) (n fuel : nat) :
  passes (totalPoints c) = Some n -> (n < fuel)%nat ->
  loop c fuel init = Some (stateAfter c n).
Proof.
  intros Hn Hfuel. rewrite <- (stateAfter_0 c).
  apply (loop_from c n Hn); lia.
Qed.

(** With the bound [Infinity] the condition never fails. *)
Lemma loop_diverges (c : Config) :
  totalPoints c = PosInf -> forall fuel st, loop c fuel st = None.
Proof.
  intros Hinf. induction fuel as [| fuel IH]; intros st; [reflexivity |].
  cbn [loop]. rewrite Hinf. unfold ofNat. cbn [le]. apply IH.
Qed.

Lemma build_returns (c : Config) (n fuel : nat) :
  passes (totalPoints c) = Some n -> (n < fuel)%nat ->
  build c fuel = Some (Return (geometryAfter c n)).
Proof.
  intros Hn Hfuel. unfold build.
  rewrite (loop_terminates c n fuel Hn Hfuel). reflexivity.
Qed.

(** Whatever the fuel, a finished loop is in the state of the closed
    form. *)
Lemma loop_result (c : Config) (fuel : nat) (st : LoopState) :
  loop c fuel init = Some st ->
  exists n, passes (totalPoints c) = Some n /\ st = stateAfter c n.
Proof.
  intros H. destruct (passes (totalPoints c)) as [n |] eqn:Hp.
  - exists n. split; [reflexivity |].
    destruct (Nat.lt_ge_cases n fuel) as [Hlt | Hge].
    + rewrite (loop_terminates c n fuel Hp Hlt) in H. now injection H.
    + exfalso. revert H. rewrite <- (stateAfter_0 c).
      assert (G : forall f k, (k + f <= n)%nat -> loop c f (stateAfter c k) = None).
      { induction f as [| f IH]; intros k Hk; [reflexivity |].
        cbn [loop]. change (i (stateAfter c k)) with k.
        rewrite (condition_passes _ n k Hp).
        destruct (Nat.ltb_spec k n) as [_ | Hbad]; [| lia].
        rewrite body_stateAfter. apply IH. lia. }
      rewrite (G fuel 0%nat) by lia. discriminate.
  - assert (Hinf : totalPoints c = PosInf).
    { unfold passes in Hp. destruct (totalPoints c); try discriminate. reflexivity. }
    rewrite (loop_diverges c Hinf) in H. discriminate.
Qed.

Lemma returns_closed_form (c : Config) (g : Geometry) :
  returns c g <->
  exists n, passes (totalPoints c) = Some n /\ g = geometryAfter c n.
Proof.
  split.
  - intros [fuel H]. unfold build in H.
    destruct (loop c fuel init) as [st |] eqn:Hl; [| discriminate].
    destruct (loop_result c fuel st Hl) as [n [Hn ->]].
    exists n. split; [exact Hn |]. now injection H as <-.
  - intros [n [Hn ->]]. exists (S n). apply build_returns; [exact Hn | lia].
Qed.

(* ================================================================== *)
(** ** Finite configurations *)
(* ================================================================== *)


Lemma finite_valid (t r h : R) : 0 < t -> 0 < r -> 0 < h -> valid (finite t r h).
Proof.
  intros Ht Hr Hh. unfold valid, positive, finite. cbn [turns radius height].
  repeat split; eexists; split; try reflexivity; assumption.
Qed.

Lemma totalPoints_finite (t r h : R) : totalPoints (finite t r h) = Num (t * 40).
Proof. reflexivity. Qed.

Lemma angle_thetaR (k : nat) : angle k = Num (thetaR k).
Proof.
  unfold angle, angleStep, pointsPerTurn, Math.PI, ofNat, thetaR.
  cbn [mul]. rewrite div_Num by lra. reflexivity.
Qed.




Lemma passes_valid (t r h : R) :
  0 < t -> passes (totalPoints (finite t r h)) = Some (S (floorNat (t * 40))).
Proof.
  intros Ht. rewrite totalPoints_finite. unfold passes.
  destruct (Rle_dec 0 (t * 40)) as [_ | Hn]; [reflexivity | lra].
Qed.

Lemma nth_error_map_seq {A : Type} (f : nat -> A) (n k : nat) :
  nth_error (map f (seq 0 n)) k = if (k <? n)%nat then Some (f k) else None.
Proof.
  destruct (Nat.ltb_spec k n) as [Hlt | Hge].
  - rewrite nth_error_map.
    rewrite (nth_error_nth' (seq 0 n) 0%nat) by (rewrite length_seq; exact Hlt).
    rewrite seq_nth by exact Hlt. reflexivity.
  - apply nth_error_None. rewrite length_map, length_seq. exact Hge.
Qed.

(** What the builder returns on a valid configuration. *)
Lemma returns_valid (t r h : R) (g : Geometry) :
  0 < t ->
  returns (finite t r h) g <->
  g = geometryAfter (finite t r h) (S (floorNat (t * 40))).
Proof.
  intros Ht. rewrite returns_closed_form, (passes_valid t r h Ht). split.
  - intros [n [Hn ->]]. now injection Hn as <-.
  - intros ->. eexists. split; reflexivity.
Qed.

Lemma strand1_after (c : Config) (n : nat) :
  strand1 (geometryAfter c n) = map (p1 c) (seq 0 n).
Proof. reflexivity. Qed.

Lemma strand2_after (c : Config) (n : nat) :
  strand2 (geometryAfter c n) = map (p2 c) (seq 0 n).
Proof. reflexivity. Qed.

(* ================================================================== *)
(** ** Properties of the strands *)
(* ================================================================== *)

(** The helix on the page: 121 points on each strand and 31 rungs. *)
Example callSite_geometry :
  withDefaults callSite = finite 3 3 35 /\
  exists g,
    geometryOf callSite 122 = Some (Return g) /\
    List.length (strand1 g) = 121%nat /\
    List.length (strand2 g) = 121%nat /\
    List.length (rungs g) = 31%nat.
Proof.
  assert (Hfloor : floorNat (3 * 40) = 120%nat).
  { unfold floorNat. replace (Int_part (3 * 40)) with 120%Z; [reflexivity |].
    apply Int_part_spec. lra. }
  split; [reflexivity |].
  exists (geometryAfter (finite 3 3 35) 121). split; [| split; [| split]].
  - unfold geometryOf. apply build_returns; [| lia].
    change (withDefaults callSite) with (finite 3 3 35).
    rewrite passes_valid by lra. now rewrite Hfloor.
  - now rewrite strand1_after, length_map, length_seq.
  - now rewrite strand2_after, length_map, length_seq.
  - unfold geometryAfter, stateAfter. cbn [rungs rungData].
    rewrite length_map. reflexivity.
Qed.

(** With no props at all the defaults of the parameter list apply. *)
Example defaults_geometry :
  withDefaults (mkProps None None None) = finite 3 2 15 /\
  valid (withDefaults (mkProps None None None)).
Proof.
  split; [reflexivity |]. apply finite_valid; lra.
Qed.

(* ================================================================== *)
(** ** Properties of the rungs *)
(* ================================================================== *)

(** The indices the test [i % 4 === 0] lets through. *)
Lemma filter_every_fourth (n : nat) :
  filter (fun k => (k mod 4 =? 0)%nat) (seq 0 n) =
  map (fun j => (4 * j)%nat) (seq 0 ((n + 3) / 4)).
Proof.
  induction n as [| n IH]; [reflexivity |].
  rewrite seq_S, filter_app, IH, Nat.add_0_l. cbn [filter].
  euclid4 n. euclid4 (n + 3)%nat. euclid4 (S n + 3)%nat.
  destruct (Nat.eqb_spec (n mod 4) 0) as [Hz | Hnz].
  - replace ((S n + 3) / 4)%nat with (S ((n + 3) / 4))%nat by lia.
    rewrite seq_S, map_app, Nat.add_0_l. cbn [map]. do 2 f_equal. lia.
  - replace ((S n + 3) / 4)%nat with ((n + 3) / 4)%nat by lia.
    apply app_nil_r.
Qed.

Lemma rungs_after (c : Config) (n : nat) :
  rungs (geometryAfter c n) =
  map (fun j => mkRung (p1 c (4 * j)) (p2 c (4 * j))) (seq 0 ((n + 3) / 4)).
Proof.
  unfold geometryAfter, stateAfter. cbn [rungs rungData].
  rewrite filter_every_fourth, map_map. reflexivity.
Qed.

(* ================================================================== *)
(** ** The height of the samples *)
(* ================================================================== *)








(* ================================================================== *)
(** ** Configurations outside the valid range *)
(* ================================================================== *)

(** In the exact model the callback has no abrupt completion. *)
Lemma build_never_throws (c : Config) (fuel : nat) (e : error) :
  build c fuel <> Some (Throw e).
Proof.
  unfold build. destruct (loop c fuel init); discriminate.
Qed.

Lemma passes_zero : passes (Num 0) = Some 1%nat.
Proof.
  unfold passes. destruct (Rle_dec 0 0) as [_ | Hn]; [| lra].
  f_equal. f_equal. unfold floorNat.
  replace (Int_part 0) with 0%Z; [reflexivity |].
  apply Int_part_spec. lra.
Qed.

(** C1, the claim as stated, refuted: on [{turns: 0, radius: 1, height: 1}]
    the callback completes normally after one pass of the loop.  Strand 1
    is the single point [(1, NaN, 0)], the height being [0 * Infinity - 0.5],
    and there is one rung. *)
Lemma C1_zero_turns_returns :
  invalid (finite 0 1 1) /\
  exists g,
    build (finite 0 1 1) 2 = Some (Return g) /\
    strand1 g = [mkVector3 (Num 1) NaN (Num 0)] /\
    List.length (strand2 g) = 1%nat /\
    List.length (rungs g) = 1%nat /\
    build (finite 0 1 1) 2 <> Some (Throw InvalidConfiguration).
Proof.
  assert (Hp : passes (totalPoints (finite 0 1 1)) = Some 1%nat).
  { rewrite totalPoints_finite, Rmult_0_l. exact passes_zero. }
  split.
  { left. right. exists 0. split; [reflexivity | lra]. }
  exists (geometryAfter (finite 0 1 1) 1).
  split; [| split; [| split; [| split]]].
  - apply build_returns; [exact Hp | lia].
  - rewrite strand1_after. cbn [seq map]. unfold p1, yAt, heightStep.
    rewrite angle_thetaR, totalPoints_finite, Rmult_0_l.
    cbn [finite height radius]. rewrite div_Num_zero by lra.
    unfold ofNat, thetaR. cbn [INR Math.cos Math.sin mul nsgn].
    rewrite sgn_zero, Rmult_0_l, cos_0, sin_0, Rmult_1_l, Rmult_0_l.
    reflexivity.
  - reflexivity.
  - reflexivity.
  - apply build_never_throws.
Qed.

(** With [turns] not positive the loop bound is zero, negative or minus
    infinity, and the loop makes one pass or none. *)
Lemma passes_nonPositive (c : Config) :
  nonPositive (turns c) -> exists n, passes (totalPoints c) = Some n.
Proof.
  unfold totalPoints, pointsPerTurn. intros [Hm | [t [Ht _]]]; rewrite ?Hm, ?Ht.
  - cbn [mul nsgn]. rewrite sgn_pos by lra. cbn. eexists. reflexivity.
  - cbn [mul passes]. eexists. reflexivity.
Qed.

(** C1 (invalid configurations), amended.  On a configuration with a
    non-positive parameter the builder does not fail with
    [InvalidConfiguration], nor with any error of the specification: it
    validates nothing.  When it is [turns] that is not positive, as in
    [{turns: 0, radius: 1, height: 1}], the loop ends at once and the
    builder returns a geometry. *)
Theorem C1_no_validation (c : Config) :
  invalid c ->
  (forall fuel e, build c fuel <> Some (Throw e)) /\
  (nonPositive (turns c) -> exists g, returns c g).
Proof.
  intros _. split; [intros fuel e; apply build_never_throws |].
  intros Ht. destruct (passes_nonPositive c Ht) as [n Hn].
  exists (geometryAfter c n). apply returns_closed_form. exists n. auto.
Qed.

Lemma C1_no_validation_witness :
  (forall fuel e, build (finite 0 1 1) fuel <> Some (Throw e)) /\
  (nonPositive (turns (finite 0 1 1)) -> exists g, returns (finite 0 1 1) g).
Proof.
  apply (C1_no_validation (finite 0 1 1)).
  left. right. exists 0. split; [reflexivity | lra].
Defined.

(* ================================================================== *)
(** ** The meshes of the rungs *)
(* ================================================================== *)

Lemma Num_eq (a b : R) : a = b -> Num a = Num b.
Proof. intros ->. reflexivity. Qed.

Lemma sum_of_squares_nonneg (a b c : R) : 0 <= a * a + b * b + c * c.
Proof.
  pose proof (Rle_0_sqr a) as Ha. pose proof (Rle_0_sqr b) as Hb.
  pose proof (Rle_0_sqr c) as Hc. unfold Rsqr in Ha, Hb, Hc. lra.
Qed.

Lemma midpoint_self (a b c : R) :
  multiplyScalar
    (addVectors (mkVector3 (Num a) (Num b) (Num c)) (mkVector3 (Num a) (Num b) (Num c)))
    (Num 0.5)
  = mkVector3 (Num a) (Num b) (Num c).
Proof.
  unfold multiplyScalar, addVectors. cbn [x y z add mul].
  f_equal; apply Num_eq; lra.
Qed.

Lemma length_subVectors_self (a b c : R) :
  THREE.length
    (subVectors (mkVector3 (Num a) (Num b) (Num c)) (mkVector3 (Num a) (Num b) (Num c)))
  = Num 0.
Proof.
  unfold THREE.length, subVectors. cbn [x y z sub neg add mul].
  rewrite sqrt_Num by apply sum_of_squares_nonneg.
  apply Num_eq. rewrite <- sqrt_0. f_equal. ring.
Qed.

(** [normalize] divides the zero vector by one. *)
Lemma normalize_subVectors_self (a b c : R) :
  normalize
    (subVectors (mkVector3 (Num a) (Num b) (Num c)) (mkVector3 (Num a) (Num b) (Num c)))
  = mkVector3 (Num 0) (Num 0) (Num 0).
Proof.
  unfold normalize. rewrite length_subVectors_self.
  unfold or_else. rewrite sgn_zero.
  unfold divideScalar, multiplyScalar, subVectors. rewrite div_Num by lra.
  cbn [x y z sub neg add mul]. f_equal; apply Num_eq; field.
Qed.

(** C7, the claim as stated, refuted: for the rung from [(1, 2, 3)] to
    [(1, 2, 3)] the assembler normalizes the zero direction and passes
    it to [setFromUnitVectors], and the mesh it places is a cylinder of
    radius 0.08, not of radius zero. *)
Lemma C7_degenerate_rung_is_a_cylinder :
  rungMesh (mkRung (mkVector3 (Num 1) (Num 2) (Num 3)) (mkVector3 (Num 1) (Num 2) (Num 3)))
  = mkMesh (mkVector3 (Num 1) (Num 2) (Num 3))
           (setFromUnitVectors (mkVector3 (Num 0) (Num 1) (Num 0))
                               (mkVector3 (Num 0) (Num 0) (Num 0)))
           (mkCylinderArgs (Num 0.08) (Num 0.08) (Num 0) 8) /\
  radiusTop
    (geometry
       (rungMesh (mkRung (mkVector3 (Num 1) (Num 2) (Num 3))
                         (mkVector3 (Num 1) (Num 2) (Num 3)))))
  <> Num 0.
Proof.
  split.
  - unfold rungMesh. cbn [start end_].
    now rewrite midpoint_self, length_subVectors_self, normalize_subVectors_self.
  - cbn [rungMesh geometry radiusTop]. intros H. apply Num_inj in H. lra.
Qed.

(** C7 (degenerate rung), amended.  A rung whose two ends are the same
    point, with finite coordinates, goes through the same steps as any
    other rung: its length is zero, [normalize] leaves its zero direction
    as it is, the orientation is computed from [(0, 1, 0)] and that zero
    vector, and the mesh is a cylinder of radius 0.08 and height zero
    placed at the point. *)
Theorem C7_degenerate_rung (a b c : R) :
  rungMesh (mkRung (mkVector3 (Num a) (Num b) (Num c)) (mkVector3 (Num a) (Num b) (Num c)))
  = mkMesh (mkVector3 (Num a) (Num b) (Num c))
           (setFromUnitVectors (mkVector3 (Num 0) (Num 1) (Num 0))
                               (mkVector3 (Num 0) (Num 0) (Num 0)))
           (mkCylinderArgs (Num 0.08) (Num 0.08) (Num 0) 8).
Proof.
  unfold rungMesh. cbn [start end_].
  rewrite midpoint_self.
  rewrite length_subVectors_self.
  rewrite normalize_subVectors_self.
  reflexivity.
Qed.

(* ================================================================== *)
(** ** The rotation of [Rotator] *)
(* ================================================================== *)

Import Rotator.

Section RotatorFacts.

Context {Children : Type}.

(** On a mounted scene the callback rewrites the [y] rotation of the
    inner group and nothing else. *)
Lemma onFrame_mounted (tilt r : Euler) (ch : list (Node Children)) (delta : number) :
  onFrame (group tilt [group r ch]) delta
  = group tilt [group (mkEuler (ex r) (ey r - delta * Num 0.5)%js (ez r)) ch].
Proof. reflexivity. Qed.

Lemma frames_cons (scene : Node Children) (d : number) (deltas : list number) :
  frames scene (d :: deltas) = frames (onFrame scene d) deltas.
Proof. reflexivity. Qed.

Lemma frames_mounted (tilt : Euler) (ch : list (Node Children)) (deltas : list number) :
  forall r,
  exists angle,
    frames (group tilt [group r ch]) deltas
    = group tilt [group (mkEuler (ex r) angle (ez r)) ch].
Proof.
  induction deltas as [| d deltas IH]; intros r.
  - exists (ey r). destruct r; reflexivity.
  - rewrite frames_cons, onFrame_mounted.
    destruct (IH (mkEuler (ex r) (ey r - d * Num 0.5)%js (ez r))) as [angle Ha].
    exists angle. exact Ha.
Qed.

End RotatorFacts.

Lemma render_tilt {Children : Type} (children : list (Node Children)) :
  render children
  = group (mkEuler (Num 0) (Num 0) (Num (PI / 6)))
          [group (mkEuler (Num 0) (Num 0) (Num 0)) children].
Proof.
  unfold render, noRotation, Math.PI. rewrite div_Num by lra. reflexivity.
Qed.

(** C9 (tilt outside spin).  [Rotator] renders an outer group rotated by
    [PI / 6] about the z axis whose only child is the inner group, and
    the inner group holds the children.  A frame changes the [y] rotation
    of the inner group and nothing else, so after any run of frames the
    outer rotation is still the tilt, the inner group still has zero [x]
    and [z] rotation, and the children are the same. *)
Theorem C9_tilt_outside_spin (Children : Type) (children : list (Node Children)) :
  render children
  = group (mkEuler (Num 0) (Num 0) (Num (PI / 6)))
          [group (mkEuler (Num 0) (Num 0) (Num 0)) children] /\
  (forall (tilt r : Euler) (ch : list (Node Children)) (delta : number),
      onFrame (group tilt [group r ch]) delta
      = group tilt [group (mkEuler (ex r) (ey r - delta * Num 0.5)%js (ez r)) ch]) /\
  (forall deltas : list number,
      exists angle,
        frames (render children) deltas
        = group (mkEuler (Num 0) (Num 0) (Num (PI / 6)))
                [group (mkEuler (Num 0) angle (Num 0)) children]).
Proof.
  split; [apply render_tilt |]. split.
  - intros tilt r ch delta. apply onFrame_mounted.
  - intros deltas. rewrite render_tilt.
    destruct (frames_mounted (mkEuler (Num 0) (Num 0) (Num (PI / 6))) children deltas
                (mkEuler (Num 0) (Num 0) (Num 0))) as [angle Ha].
    exists angle. exact Ha.
Qed.

(* ================================================================== *)
(** ** More on the geometry loop *)
(* ================================================================== *)

(** X2 (shape of a returned geometry).  Whatever the configuration,
    valid or not, a geometry the builder returns has two strands of the
    same length [n] and [ceil (n / 4)] rungs, and rung [j] joins sample
    [4 * j] of strand 1 to sample [4 * j] of strand 2. *)
Theorem returned_geometry_shape (c : Config) (g : Geometry) :
  returns c g ->
  List.length (strand1 g) = List.length (strand2 g) /\
  List.length (rungs g) = ((List.length (strand1 g) + 3) / 4)%nat /\
  forall j,
    nth_error (rungs g) j =
    match nth_error (strand1 g) (4 * j), nth_error (strand2 g) (4 * j) with
    | Some a, Some b => Some (mkRung a b)
    | _, _ => None
    end.
Proof.
  intros Hg. apply returns_closed_form in Hg. destruct Hg as [n [_ ->]].
  rewrite rungs_after, strand1_after, strand2_after.
  rewrite !length_map, !length_seq.
  split; [reflexivity |]. split; [reflexivity |].
  intros j. rewrite !nth_error_map_seq.
  euclid4 (n + 3)%nat.
  destruct (Nat.ltb_spec j ((n + 3) / 4)) as [Hj | Hj];
    destruct (Nat.ltb_spec (4 * j) n) as [Hj' | Hj'];
    try reflexivity; lia.
Qed.

Lemma returned_geometry_shape_witness :
  List.length (strand1 (geometryAfter (finite 3 3 35) (S (floorNat (3 * 40)))))
  = List.length (strand2 (geometryAfter (finite 3 3 35) (S (floorNat (3 * 40))))) /\
  List.length (rungs (geometryAfter (finite 3 3 35) (S (floorNat (3 * 40)))))
  = ((List.length (strand1 (geometryAfter (finite 3 3 35) (S (floorNat (3 * 40))))) + 3) / 4)%nat /\
  forall j,
    nth_error (rungs (geometryAfter (finite 3 3 35) (S (floorNat (3 * 40))))) j =
    match nth_error (strand1 (geometryAfter (finite 3 3 35) (S (floorNat (3 * 40))))) (4 * j),
          nth_error (strand2 (geometryAfter (finite 3 3 35) (S (floorNat (3 * 40))))) (4 * j)
    with
    | Some a, Some b => Some (mkRung a b)
    | _, _ => None
    end.
Proof.
  apply (returned_geometry_shape (finite 3 3 35)).
  apply returns_valid; [lra | reflexivity].
Defined.

(** X3 (a [NaN] number of turns).  Every comparison with [NaN] is false,
    so with [turns = NaN] the loop body never runs and the builder
    returns two empty strands and no rung. *)
Theorem nan_turns_empty (r h : number) (fuel : nat) :
  build (mkConfig NaN r h) (S fuel)
  = Some (Return (mkGeometry (mkCatmullRomCurve3 []) (mkCatmullRomCurve3 []) [])).
Proof.
  apply (build_returns (mkConfig NaN r h) 0 (S fuel)); [| lia].
  unfold totalPoints, pointsPerTurn. cbn [turns mul nsgn]. reflexivity.
Qed.



(* ================================================================== *)
(** ** More on the rotation *)
(* ================================================================== *)

Lemma sub_NaN_l (a : number) : (NaN - a)%js = NaN.
Proof. reflexivity. Qed.

Lemma sub_mul_NaN (a b : number) : (a - NaN * b)%js = NaN.
Proof. destruct a, b; reflexivity. Qed.

Lemma frames_NaN_angle {Children : Type} (tilt : Euler) (ch : list (Node Children))
    (e1 e3 : number) (deltas : list number) :
  frames (group tilt [group (mkEuler e1 NaN e3) ch]) deltas
  = group tilt [group (mkEuler e1 NaN e3) ch].
Proof.
  induction deltas as [| d deltas IH]; [reflexivity |].
  rewrite frames_cons, onFrame_mounted. cbn [ex ey ez].
  rewrite sub_NaN_l. exact IH.
Qed.

(** X11 (a [NaN] delta).  One frame whose delta is [NaN] makes the spin
    angle [NaN], and no later frame brings it back: after a run of
    frames that contains a [NaN] delta the angle is [NaN]. *)
Theorem nan_delta_poisons_spin (Children : Type) (children : list (Node Children))
    (deltas : list number) :
  In NaN deltas -> spin (frames (render children) deltas) = Some NaN.
Proof.
  intros Hin. apply in_split in Hin. destruct Hin as [before [after ->]].
  unfold frames. rewrite fold_left_app. fold (frames (render children) before).
  destruct (frames_mounted (mkEuler (Num 0) (Num 0) (Math.PI / Num 6)%js)
              children before noRotation) as [angle Ha].
  change (group (mkEuler (Num 0) (Num 0) (Math.PI / Num 6)%js)
            [group noRotation children]) with (render children) in Ha.
  rewrite Ha. cbn [fold_left]. rewrite onFrame_mounted. cbn [ex ey ez noRotation].
  rewrite sub_mul_NaN.
  fold (frames (group (mkEuler (Num 0) (Num 0) (Math.PI / Num 6)%js)
                  [group (mkEuler (Num 0) NaN (Num 0)) children]) after).
  rewrite frames_NaN_angle. reflexivity.
Qed.

Lemma nan_delta_poisons_spin_witness :
  spin (frames (render [@element nat 0%nat]) [Num 1; NaN; Num 2]) = Some NaN.
Proof.
  apply (nan_delta_poisons_spin nat). right. left. reflexivity.
Defined.

(* ================================================================== *)
(** ** The project cards *)
(* ================================================================== *)

Lemma truthy_nonempty (s : string) : Str.truthy s = true <-> s <> EmptyString.
Proof.
  unfold Str.truthy. destruct (String.eqb_spec s "") as [-> | Hne]; cbn [negb].
  - split; [discriminate | intros H; now elim H].
  - split; auto.
Qed.

(** The three cases of [githubState] that show something, read back as
    conditions on [github_url]. *)
Lemma githubState_cases (p : ProjectCard.Project) :
  (ProjectCard.githubState p = ProjectCard.private
     <-> ProjectCard.github_url p = Some "Private"%string) /\
  (ProjectCard.githubState p = ProjectCard.locked
     <-> ProjectCard.github_url p = Some "Private till completed"%string) /\
  (ProjectCard.githubState p = ProjectCard.public
     <-> exists u, ProjectCard.github_url p = Some u /\ u <> EmptyString /\
                   u <> "Private"%string /\ u <> "Private till completed"%string).
Proof.
  unfold ProjectCard.githubState.
  destruct (ProjectCard.github_url p) as [u |].
  - destruct (String.eqb_spec u "Private") as [-> | Hp].
    + cbn. repeat split; try discriminate; auto.
      intros [u [Hu [_ [Hne _]]]]. injection Hu as <-. now elim Hne.
    + destruct (String.eqb_spec u "Private till completed") as [-> | Hl].
      * repeat split; try discriminate; auto.
        intros [u [Hu [_ [_ Hne]]]]. injection Hu as <-. now elim Hne.
      * destruct (Str.truthy u) eqn:Ht.
        -- apply truthy_nonempty in Ht. repeat split; try discriminate.
           ++ intros H. injection H as ->. now elim Hp.
           ++ intros H. injection H as ->. now elim Hl.
           ++ intros _. exists u. auto.
        -- assert (Hu : u = EmptyString).
           { destruct (String.eqb_spec u "") as [-> | Hne]; [reflexivity |].
             apply truthy_nonempty in Hne. congruence. }
           repeat split; try discriminate.
           ++ intros H. injection H as ->. now elim Hp.
           ++ intros H. injection H as ->. now elim Hl.
           ++ intros [v [Hv [Hne _]]]. injection Hv as <-. now elim Hne.
  - repeat split; try discriminate. intros [u [Hu _]]. discriminate.
Qed.

(** X13 (what a card says about the repository).  The controls of a
    card are the status badge, at most one control about the
    repository, and a chevron.  A closed card shows none; an open card
    shows the note for ["Private"], the note for
    ["Private till completed"], or the GitHub button, and the button
    only for a [github_url] that is a non-empty string other than those
    two; with an empty or missing [github_url] it shows none. *)
Theorem repository_control (p : ProjectCard.Project) (expanded : bool) :
  exists repo,
    ProjectCard.controls p expanded
    = [ProjectCard.StatusBadge (ProjectCard.statusClass p) (ProjectCard.status p)]
      ++ repo
      ++ [if expanded then ProjectCard.ChevronDown else ProjectCard.ChevronRight] /\
    (List.length repo <= 1)%nat /\
    (repo = [ProjectCard.PrivateNote]
       <-> expanded = true /\ ProjectCard.github_url p = Some "Private"%string) /\
    (repo = [ProjectCard.LockedNote]
       <-> expanded = true /\
           ProjectCard.github_url p = Some "Private till completed"%string) /\
    (forall url,
        In (ProjectCard.GithubButton url) repo <->
        expanded = true /\ url = ProjectCard.github_url p /\
        exists u, url = Some u /\ u <> EmptyString /\
                  u <> "Private"%string /\ u <> "Private till completed"%string).
Proof.
  destruct (githubState_cases p) as [Hpriv [Hlock Hpub]].
  unfold ProjectCard.controls.
  exists (ProjectCard.when (expanded && ProjectCard.isPublic (ProjectCard.githubState p))
            (ProjectCard.GithubButton (ProjectCard.github_url p))
          ++ ProjectCard.when (expanded && ProjectCard.isLocked (ProjectCard.githubState p))
               ProjectCard.LockedNote
          ++ ProjectCard.when (expanded && ProjectCard.isPrivate (ProjectCard.githubState p))
               ProjectCard.PrivateNote).
  split; [now rewrite <- !app_assoc |].
  destruct expanded; cbn [andb ProjectCard.when app].
  - destruct (ProjectCard.githubState p) eqn:Hs;
      cbn [ProjectCard.isPublic ProjectCard.isLocked ProjectCard.isPrivate
           ProjectCard.when app List.length].
    + (* private *)
      split; [lia |]. split; [| split].
      * split; [intros _; split; [reflexivity | now apply Hpriv] | reflexivity].
      * split; [discriminate |]. intros [_ H]. apply Hlock in H. discriminate.
      * intros url. split.
        -- intros [H | []]. discriminate.
        -- intros [_ [-> H]]. apply Hpub in H. discriminate.
    + (* locked *)
      split; [lia |]. split; [| split].
      * split; [discriminate |]. intros [_ H]. apply Hpriv in H. discriminate.
      * split; [intros _; split; [reflexivity | now apply Hlock] | reflexivity].
      * intros url. split.
        -- intros [H | []]. discriminate.
        -- intros [_ [-> H]]. apply Hpub in H. discriminate.
    + (* public *)
      split; [lia |]. split; [| split].
      * split; [discriminate |]. intros [_ H]. apply Hpriv in H. discriminate.
      * split; [discriminate |]. intros [_ H]. apply Hlock in H. discriminate.
      * intros url. split.
        -- intros [H | []]. injection H as <-.
           split; [reflexivity |]. split; [reflexivity |]. now apply Hpub.
        -- intros [_ [-> _]]. left. reflexivity.
    + (* none *)
      split; [cbn; lia |]. split; [| split].
      * split; [discriminate |]. intros [_ H]. apply Hpriv in H. discriminate.
      * split; [discriminate |]. intros [_ H]. apply Hlock in H. discriminate.
      * intros url. split; [intros [] |].
        intros [_ [-> H]]. apply Hpub in H. discriminate.
  - cbn [List.length]. split; [lia |]. split; [| split].
    + split; [discriminate | intros [H _]; discriminate].
    + split; [discriminate | intros [H _]; discriminate].
    + intros url. split; [intros [] | intros [H _]; discriminate].
Qed.

(** X14 (a click on the GitHub button).  The handler of the button stops
    the click from reaching the card, so the click opens [github_url]
    in a new tab and leaves the open card open; a click anywhere else
    in the card toggles it. *)
Theorem github_click_keeps_card_open (p : ProjectCard.Project) (activeProject : Z) :
  ProjectCard.clickInside (ProjectCard.githubOnClick p) (Portfolio.onClick p) activeProject
  = (activeProject, [ProjectCard.WindowOpen (ProjectCard.github_url p) "_blank"]) /\
  ProjectCard.clickInside (fun e => (e, [])) (Portfolio.onClick p) activeProject
  = (Portfolio.onClick p activeProject, []) /\
  (ProjectCard.id p <> (-1)%Z ->
   Portfolio.expanded (Portfolio.onClick p activeProject) p
   = negb (Portfolio.expanded activeProject p)).
Proof.
  split; [reflexivity |]. split; [reflexivity |].
  intros Hid. unfold Portfolio.expanded, Portfolio.onClick.
  destruct (Z.eqb_spec activeProject (ProjectCard.id p)) as [-> | Hne]; cbn [negb].
  - apply Z.eqb_neq. auto.
  - apply Z.eqb_refl.
Qed.

(* ================================================================== *)
(** ** Which card is open *)
(* ================================================================== *)

Lemma openCards_none (ps : list ProjectCard.Project) (a : Z) :
  (forall q, In q ps -> ProjectCard.id q <> a) -> Portfolio.openCards ps a = [].
Proof.
  unfold Portfolio.openCards, Portfolio.expanded.
  induction ps as [| q ps IH]; intros Hne; [reflexivity |].
  cbn [filter]. destruct (Z.eqb_spec a (ProjectCard.id q)) as [Heq | _].
  - exfalso. apply (Hne q); [left; reflexivity | auto].
  - apply IH. intros q' Hq'. apply Hne. right. exact Hq'.
Qed.

Lemma openCards_at_most_one (ps : list ProjectCard.Project) (a : Z) :
  NoDup (map ProjectCard.id ps) -> (List.length (Portfolio.openCards ps a) <= 1)%nat.
Proof.
  induction ps as [| q ps IH]; intros Hnd; [cbn; lia |].
  cbn [map] in Hnd. apply NoDup_cons_iff in Hnd. destruct Hnd as [Hq Hnd].
  unfold Portfolio.openCards. cbn [filter]. unfold Portfolio.expanded at 1.
  destruct (Z.eqb_spec a (ProjectCard.id q)) as [-> | _].
  - fold (Portfolio.openCards ps (ProjectCard.id q)).
    rewrite openCards_none; [cbn; lia |].
    intros q' Hq' Heq. apply Hq. rewrite <- Heq. now apply in_map.
  - now apply IH.
Qed.

Lemma openCards_own_id (ps : list ProjectCard.Project) (p : ProjectCard.Project) :
  NoDup (map ProjectCard.id ps) -> In p ps ->
  Portfolio.openCards ps (ProjectCard.id p) = [p].
Proof.
  induction ps as [| q ps IH]; intros Hnd Hin; [destruct Hin |].
  cbn [map] in Hnd. apply NoDup_cons_iff in Hnd. destruct Hnd as [Hq Hnd].
  unfold Portfolio.openCards. cbn [filter]. unfold Portfolio.expanded at 1.
  fold (Portfolio.openCards ps (ProjectCard.id p)).
  destruct Hin as [-> | Hin].
  - rewrite Z.eqb_refl, openCards_none; [reflexivity |].
    intros q' Hq' Heq. apply Hq. rewrite <- Heq. now apply in_map.
  - destruct (Z.eqb_spec (ProjectCard.id p) (ProjectCard.id q)) as [Heq | _].
    + exfalso. apply Hq. rewrite <- Heq. now apply in_map.
    + now apply IH.
Qed.

Lemma projects_ids_distinct : NoDup (map ProjectCard.id Portfolio.projects).
Proof.
  cbn. repeat constructor; cbn; intuition discriminate.
Qed.

Lemma projects_ids_not_minus_one :
  forall q, In q Portfolio.projects -> ProjectCard.id q <> (-1)%Z.
Proof.
  intros q Hq. cbn in Hq.
  destruct Hq as [<- | [<- | [<- | [<- | []]]]]; discriminate.
Qed.

(** X15 (one card at a time).  When the projects have distinct ids, at
    most one card is open, in the initial state and after any run of
    clicks on cards. *)
Theorem at_most_one_card_open (ps clicked : list ProjectCard.Project) :
  NoDup (map ProjectCard.id ps) ->
  (List.length (Portfolio.openCards ps Portfolio.initialActiveProject) <= 1)%nat /\
  (List.length
     (Portfolio.openCards ps (Portfolio.clicks Portfolio.initialActiveProject clicked))
   <= 1)%nat.
Proof.
  intros Hnd. split; apply openCards_at_most_one; exact Hnd.
Qed.

Lemma at_most_one_card_open_witness :
  (List.length (Portfolio.openCards Portfolio.projects Portfolio.initialActiveProject)
   <= 1)%nat /\
  (List.length
     (Portfolio.openCards Portfolio.projects
        (Portfolio.clicks Portfolio.initialActiveProject
           (firstn 2 Portfolio.projects)))
   <= 1)%nat.
Proof.
  apply (at_most_one_card_open Portfolio.projects (firstn 2 Portfolio.projects)).
  exact projects_ids_distinct.
Defined.

(** X16 (a click on a card).  When the projects have distinct ids, none
    of them [-1], a click on a closed card leaves that card open and no
    other, and a click on the open card leaves no card open. *)
Theorem click_opens_or_closes (ps : list ProjectCard.Project)
    (p : ProjectCard.Project) (activeProject : Z) :
  NoDup (map ProjectCard.id ps) ->
  (forall q, In q ps -> ProjectCard.id q <> (-1)%Z) ->
  In p ps ->
  Portfolio.openCards ps (Portfolio.onClick p activeProject)
  = if Portfolio.expanded activeProject p then [] else [p].
Proof.
  intros Hnd Hids Hin. unfold Portfolio.onClick, Portfolio.expanded.
  destruct (Z.eqb_spec activeProject (ProjectCard.id p)) as [_ | _].
  - apply openCards_none. exact Hids.
  - now apply openCards_own_id.
Qed.

Lemma click_opens_or_closes_witness :
  match Portfolio.projects with
  | _ :: _ :: p :: _ =>
      Portfolio.openCards Portfolio.projects
        (Portfolio.onClick p Portfolio.initialActiveProject)
      = if Portfolio.expanded Portfolio.initialActiveProject p then [] else [p]
  | _ => False
  end.
Proof.
  cbv beta iota delta [Portfolio.projects].
  apply (click_opens_or_closes Portfolio.projects).
  - exact projects_ids_distinct.
  - exact projects_ids_not_minus_one.
  - cbn. right. right. left. reflexivity.
Defined.

(* ================================================================== *)
(** ** The render time in the footer *)
(* ================================================================== *)

Lemma append_assoc (a b c : string) : ((a ++ b) ++ c = a ++ (b ++ c))%string.
Proof.
  induction a as [| ch a IH]; [reflexivity |]. cbn [append]. now rewrite IH.
Qed.

Lemma length_append (a b : string) :
  String.length (a ++ b) = (String.length a + String.length b)%nat.
Proof.
  induction a as [| ch a IH]; [reflexivity |]. cbn [append String.length Nat.add].
  now rewrite IH.
Qed.

Lemma take_append (a b : string) : Str.take (String.length a) (a ++ b) = a.
Proof.
  induction a as [| ch a IH]; [destruct b; reflexivity |].
  cbn [append String.length Str.take]. now rewrite IH.
Qed.

Lemma drop_append (a b : string) : Str.drop (String.length a) (a ++ b) = b.
Proof.
  induction a as [| ch a IH]; [destruct b; reflexivity |].
  cbn [append String.length Str.drop]. exact IH.
Qed.

Lemma truthy_append_r (a b : string) :
  Str.truthy b = true -> Str.truthy (a ++ b) = true.
Proof.
  destruct a as [| ch a]; [auto | reflexivity].
Qed.

Lemma digitsFuel_enough (f1 f2 n : nat) :
  (n < f1)%nat -> (n < f2)%nat -> Str.digitsFuel f1 n = Str.digitsFuel f2 n.
Proof.
  revert f2 n. induction f1 as [| f1 IH]; intros f2 n H1 H2; [lia |].
  destruct f2 as [| f2]; [lia |]. cbn [Str.digitsFuel].
  destruct (Nat.ltb_spec n 10) as [_ | Hge]; [reflexivity |].
  assert (Hdiv : (n / 10 < n)%nat) by (apply Nat.div_lt; lia).
  rewrite (IH f2 (n / 10)%nat) by lia. reflexivity.
Qed.

Lemma digits_small (n : nat) :
  (n < 10)%nat -> Str.digits n = String (Str.digit n) EmptyString.
Proof.
  intros Hn. unfold Str.digits. cbn [Str.digitsFuel].
  now rewrite (proj2 (Nat.ltb_lt n 10) Hn).
Qed.

Lemma digits_step (n : nat) :
  (10 <= n)%nat ->
  Str.digits n
  = (Str.digits (n / 10) ++ String (Str.digit (n mod 10)) EmptyString)%string.
Proof.
  intros Hn. unfold Str.digits at 1. cbn [Str.digitsFuel].
  destruct (Nat.ltb_spec n 10) as [Hlt | _]; [lia |].
  assert (Hdiv : (n / 10 < n)%nat) by (apply Nat.div_lt; lia).
  unfold Str.digits. rewrite (digitsFuel_enough n (S (n / 10)) (n / 10)) by lia.
  reflexivity.
Qed.

Lemma digits_nonempty (n : nat) : (1 <= String.length (Str.digits n))%nat.
Proof.
  destruct (Nat.lt_ge_cases n 10) as [Hlt | Hge].
  - rewrite digits_small by exact Hlt. cbn. lia.
  - rewrite digits_step, length_append by exact Hge. cbn [String.length]. lia.
Qed.

(** The digits of [n], padded to three characters and cut before the
    last two, are the digits of the hundreds and the two last digits. *)
Lemma fixed2_layout (n : nat) :
  let m := Str.digits n in
  let k := String.length m in
  let m' := if (k <=? 2)%nat then (Str.zeros (2 + 1 - k) ++ m)%string else m in
  let k' := if (k <=? 2)%nat then (2 + 1)%nat else k in
  (Str.take (k' - 2) m' ++ "." ++ Str.drop (k' - 2) m')%string
  = (Str.digits (n / 100) ++ "."
     ++ String (Str.digit ((n / 10) mod 10))
          (String (Str.digit (n mod 10)) EmptyString))%string.
Proof.
  cbv zeta.
  destruct (Nat.lt_ge_cases n 10) as [H10 | H10].
  - rewrite (digits_small n H10). cbn [String.length Nat.leb Nat.sub Nat.add].
    rewrite (Nat.div_small n 100), (Nat.div_small n 10) by lia.
    rewrite (Nat.mod_small n 10) by lia. reflexivity.
  - rewrite (digits_step n H10).
    destruct (Nat.lt_ge_cases n 100) as [H100 | H100].
    + assert (Hq : (n / 10 < 10)%nat) by (apply Nat.Div0.div_lt_upper_bound; lia).
      rewrite (digits_small _ Hq).
      cbn [append String.length Nat.leb Nat.sub Nat.add].
      rewrite (Nat.div_small n 100), (Nat.mod_small (n / 10) 10) by lia.
      reflexivity.
    + assert (Hq : (10 <= n / 10)%nat) by (apply Nat.div_le_lower_bound; lia).
      rewrite (digits_step _ Hq), Nat.Div0.div_div. change (10 * 10)%nat with 100%nat.
      rewrite append_assoc. cbn [append].
      rewrite length_append. cbn [String.length].
      pose proof (digits_nonempty (n / 100)) as Hlen.
      set (a := Str.digits (n / 100)) in *.
      destruct (Nat.leb_spec (String.length a + 2) 2) as [Hbad | _]; [lia |].
      replace (String.length a + 2 - 2)%nat with (String.length a) by lia.
      now rewrite take_append, drop_append.
Qed.

Lemma toFixed2_small (toStringLarge : R -> string) (x : R) :
  0 <= x < 10 ^ 21 ->
  Str.toFixed2 toStringLarge (Num x)
  = (Str.digits (floorNat (x * 100 + / 2) / 100) ++ "."
     ++ String (Str.digit ((floorNat (x * 100 + / 2) / 10) mod 10))
          (String (Str.digit (floorNat (x * 100 + / 2) mod 10)) EmptyString))%string.
Proof.
  intros [Hlo Hhi]. unfold Str.toFixed2.
  destruct (Rlt_dec x 0) as [Hneg | _]; [lra |].
  destruct (Rle_dec (10 ^ 21) x) as [Hbig | _]; [lra |].
  cbn [append]. apply fixed2_layout.
Qed.

(** X18 ([toFixed(2)] on an elapsed time).  For [0 <= x < 10^21] the
    text [x.toFixed(2)] is the digits of a whole number, a point and
    exactly two digits, and the number it spells is within half a
    hundredth of [x]: with [n] the natural number spelt by the digits
    without the point, [-1/200 < n/100 - x <= 1/200]. *)
Theorem toFixed2_layout (toStringLarge : R -> string) (x : R) :
  0 <= x < 10 ^ 21 ->
  exists n,
    Str.toFixed2 toStringLarge (Num x)
    = (Str.digits (n / 100) ++ "."
       ++ String (Str.digit ((n / 10) mod 10))
            (String (Str.digit (n mod 10)) EmptyString))%string /\
    - (1 / 200) < INR n / 100 - x <= 1 / 200.
Proof.
  intros Hx. exists (floorNat (x * 100 + / 2)). split.
  - apply toFixed2_small. exact Hx.
  - destruct (floorNat_bounds (x * 100 + / 2)) as [H1 H2]; lra.
Qed.

Lemma toFixed2_layout_witness :
  exists n,
    Str.toFixed2 (fun _ => EmptyString) (Num (5 / 4))
    = (Str.digits (n / 100) ++ "."
       ++ String (Str.digit ((n / 10) mod 10))
            (String (Str.digit (n mod 10)) EmptyString))%string /\
    - (1 / 200) < INR n / 100 - 5 / 4 <= 1 / 200.
Proof.
  apply (toFixed2_layout (fun _ => EmptyString) (5 / 4)).
  split; [lra |]. cbn [pow]. lra.
Defined.

(** Two readings: an elapsed time of zero, and one of a millisecond and
    a quarter. *)
Example toFixed2_examples (toStringLarge : R -> string) :
  Str.toFixed2 toStringLarge (Num 0) = "0.00"%string /\
  Str.toFixed2 toStringLarge (Num (5 / 4)) = "1.25"%string.
Proof.
  assert (H0 : floorNat (0 * 100 + / 2) = 0%nat).
  { unfold floorNat. replace (Int_part (0 * 100 + / 2)) with 0%Z; [reflexivity |].
    apply Int_part_spec. lra. }
  assert (H1 : floorNat (5 / 4 * 100 + / 2) = 125%nat).
  { unfold floorNat. replace (Int_part (5 / 4 * 100 + / 2)) with 125%Z; [reflexivity |].
    apply Int_part_spec. lra. }
  split.
  - rewrite toFixed2_small by (cbn [pow]; lra). rewrite H0. reflexivity.
  - rewrite toFixed2_small by (cbn [pow]; lra). rewrite H1. reflexivity.
Qed.

(* ================================================================== *)
(** ** The binary64 model: the counter, the loop and the properties *)
(* ================================================================== *)

Section Binary64Facts.

Import Binary64 Binary64.THREE Binary64.DNAHelix.
Local Open Scope Z_scope.

(** *** Mantissas and their sizes *)

(** The number of bits of a mantissa, as the library counts them. *)
Lemma digits2_size (p : BinNums.positive) : digits2_pos p = Pos.size p.
Proof. induction p; simpl; congruence. Qed.

Lemma size_log2 (p : BinNums.positive) : Zpos (Pos.size p) = Z.log2 (Zpos p) + 1.
Proof. destruct p; simpl; lia. Qed.

Lemma size_bounds (p : BinNums.positive) :
  2 ^ (Zpos (Pos.size p) - 1) <= Zpos p < 2 ^ Zpos (Pos.size p).
Proof.
  rewrite size_log2.
  replace (Z.log2 (Zpos p) + 1 - 1) with (Z.log2 (Zpos p)) by lia.
  apply (Z.log2_spec (Zpos p)). lia.
Qed.

Lemma size_unique (p : BinNums.positive) (d : Z) :
  2 ^ (d - 1) <= Zpos p < 2 ^ d -> 1 <= d -> Zpos (Pos.size p) = d.
Proof.
  intros H Hd. rewrite size_log2.
  rewrite (Z.log2_unique (Zpos p) (d - 1)); [lia | lia |].
  replace (Z.succ (d - 1)) with d by lia. exact H.
Qed.

Lemma iter_xO (m d : BinNums.positive) : Zpos (Pos.iter xO m d) = Zpos m * 2 ^ Zpos d.
Proof.
  induction d as [| d IH] using Pos.peano_ind.
  - simpl. lia.
  - rewrite Pos.iter_succ, Pos2Z.inj_xO, IH, Pos2Z.inj_succ, Z.pow_succ_r by lia. lia.
Qed.

Lemma shl_align_le (m : BinNums.positive) (e e' : Z) :
  e' <= e -> shl_align m e e' = (Z.to_pos (Zpos m * 2 ^ (e - e')), e').
Proof.
  intros H. unfold shl_align.
  destruct (e' - e) as [| d | d] eqn:E; try lia.
  - replace (e - e') with 0 by lia. replace e' with e by lia.
    rewrite Z.pow_0_r, Z.mul_1_r. reflexivity.
  - replace (e - e') with (Zpos d) by lia.
    rewrite <- iter_xO. reflexivity.
Qed.

(** *** Shifts that lose nothing *)

Lemma iter_pos_iter {A : Type} (f : A -> A) (n : BinNums.positive) (x : A) :
  SpecFloat.iter_pos f n x = Pos.iter f x n.
Proof.
  revert x. induction n as [n IH | n IH |]; intros x; simpl.
  - rewrite !IH. rewrite <- !Pos.iter_swap. reflexivity.
  - rewrite !IH. reflexivity.
  - reflexivity.
Qed.

Lemma shr_1_exact (m : Z) :
  0 <= m -> m mod 2 = 0 ->
  shr_1 (Build_shr_record m false false) = Build_shr_record (m / 2) false false.
Proof.
  intros Hm H. destruct m as [| [p | p |] |]; try lia.
  - reflexivity.
  - exfalso. rewrite Pos2Z.inj_xI in H. rewrite Z.add_comm, Z.mul_comm, Z.mod_add in H by lia.
    discriminate.
  - simpl shr_1. f_equal. rewrite Pos2Z.inj_xO, Z.mul_comm, Z.div_mul by lia. reflexivity.
  - discriminate.
Qed.

Lemma shr_exact (k : BinNums.positive) (m : Z) :
  0 <= m -> m mod 2 ^ Zpos k = 0 ->
  SpecFloat.iter_pos shr_1 k (Build_shr_record m false false)
  = Build_shr_record (m / 2 ^ Zpos k) false false.
Proof.
  rewrite iter_pos_iter. revert m.
  induction k as [| k IH] using Pos.peano_ind; intros m Hm H.
  - simpl Pos.iter. apply shr_1_exact; [exact Hm |]. exact H.
  - rewrite Pos.iter_succ, <- Pos.iter_swap.
    rewrite Pos2Z.inj_succ, Z.pow_succ_r in * by lia.
    assert (H2 : m mod 2 = 0).
    { apply Z.mod_divide; [lia |]. apply Z.mod_divide in H; [| lia].
      destruct H as [q Hq]. exists (q * 2 ^ Zpos k). lia. }
    rewrite shr_1_exact by assumption.
    rewrite IH.
    + f_equal. rewrite Z.div_div by lia. reflexivity.
    + apply Z.div_pos; lia.
    + apply Z.mod_divide in H; [| lia]. destruct H as [q Hq].
      subst m. replace (q * (2 * 2 ^ Zpos k)) with (q * 2 ^ Zpos k * 2) by lia.
      rewrite Z.div_mul by lia. apply Z.mod_mul. lia.
Qed.


(** *** Rounding that loses nothing *)

(** The exponent of a double with a mantissa of 53 bits. *)
Lemma fexp_canonical (E : Z) : -1074 <= E -> fexp prec emax (53 + E) = E.
Proof. unfold fexp, emin, prec, emax. lia. Qed.

Lemma pow2_pos (a : Z) : 0 <= a -> 0 < 2 ^ a.
Proof. intros. apply Z.pow_pos_nonneg; lia. Qed.

Lemma size_mul_pow2 (q : BinNums.positive) (k : Z) (m : BinNums.positive) :
  0 <= k -> Zpos m = Zpos q * 2 ^ k ->
  Zpos (Pos.size m) = Zpos (Pos.size q) + k.
Proof.
  intros Hk Hm. apply size_unique; [| lia].
  pose proof (size_bounds q) as Hb.
  pose proof (pow2_pos k Hk) as Hp.
  replace (Zpos (Pos.size q) + k - 1) with (Zpos (Pos.size q) - 1 + k) by lia.
  rewrite !Z.pow_add_r by lia. rewrite Hm. nia.
Qed.

(** A mantissa [q] followed by [k] zero bits, at an exponent where [q]
    is the canonical mantissa once the zeros are dropped: the shift
    drops them, and nothing else. *)
Lemma shr_fexp_canonical (q : BinNums.positive) (e k : Z) :
  0 <= k -> fexp prec emax (Zpos (Pos.size q) + (e + k)) = e + k ->
  shr_fexp prec emax (Zpos q * 2 ^ k) e loc_Exact
  = (Build_shr_record (Zpos q) false false, e + k).
Proof.
  intros Hk He.
  pose proof (pow2_pos k Hk) as Hp.
  destruct (Zpos q * 2 ^ k) as [| m | m] eqn:Hm; try lia.
  symmetry in Hm.
  unfold shr_fexp. cbn [Zdigits2 shr_record_of_loc].
  rewrite digits2_size, (size_mul_pow2 q k m Hk Hm).
  replace (Zpos (Pos.size q) + k + e) with (Zpos (Pos.size q) + (e + k)) by lia.
  rewrite He.
  replace (e + k - e) with k by lia.
  unfold shr. destruct k as [| kp | kp]; try lia.
  - rewrite Z.pow_0_r, Z.mul_1_r in Hm. rewrite Z.add_0_r. congruence.
  - rewrite shr_exact.
    + rewrite Hm, Z.div_mul by lia. reflexivity.
    + lia.
    + rewrite Hm. apply Z.mod_mul. lia.
Qed.

(** Rounding such a mantissa is exact; the result is finite unless the
    exponent is above the largest one. *)
Lemma binary_round_aux_canonical (s : bool) (q : BinNums.positive) (e k : Z) :
  0 <= k -> fexp prec emax (Zpos (Pos.size q) + (e + k)) = e + k ->
  binary_round_aux prec emax s (Zpos q * 2 ^ k) e loc_Exact
  = if e + k <=? 971 then S754_finite s q (e + k) else S754_infinity s.
Proof.
  intros Hk He. unfold binary_round_aux.
  rewrite shr_fexp_canonical by assumption.
  cbn [shr_m loc_of_shr_record round_nearest_even].
  replace (Zpos q) with (Zpos q * 2 ^ 0) at 1 by (rewrite Z.pow_0_r; lia).
  rewrite shr_fexp_canonical; [| lia | now rewrite Z.add_0_r].
  cbn [shr_m]. rewrite Z.add_0_r. reflexivity.
Qed.

Lemma binary_round_aux_exact (s : bool) (q : BinNums.positive) (e k : Z) :
  Zpos (Pos.size q) = 53 -> 0 <= k -> -1074 <= e + k <= 971 ->
  binary_round_aux prec emax s (Zpos q * 2 ^ k) e loc_Exact = S754_finite s q (e + k).
Proof.
  intros Hq Hk He. rewrite binary_round_aux_canonical.
  - destruct (Z.leb_spec (e + k) 971); [reflexivity | lia].
  - exact Hk.
  - rewrite Hq. apply fexp_canonical. lia.
Qed.

Lemma size_shift (q : BinNums.positive) (k : Z) (m : BinNums.positive) :
  Zpos (Pos.size q) = 53 -> 0 <= k -> Zpos m = Zpos q * 2 ^ k ->
  Zpos (Pos.size m) = 53 + k.
Proof.
  intros Hq Hk Hm. rewrite (size_mul_pow2 q k m Hk Hm), Hq. reflexivity.
Qed.

Lemma shl_align_ge (m : BinNums.positive) (e e' : Z) : e <= e' -> shl_align m e e' = (m, e).
Proof.
  intros H. unfold shl_align. destruct (e' - e) eqn:E; try reflexivity. lia.
Qed.

(** Rounding a value that is a 53-bit mantissa [q] at exponent [E]
    gives that number: nothing is lost. *)
Lemma binary_round_right (s : bool) (m q : BinNums.positive) (e E : Z) :
  Zpos (Pos.size q) = 53 -> e <= E -> -1074 <= E <= 971 ->
  Zpos m = Zpos q * 2 ^ (E - e) ->
  binary_round prec emax s m e = S754_finite s q E.
Proof.
  intros Hq HeE HE Hm. unfold binary_round.
  rewrite digits2_size, (size_shift q (E - e) m Hq) by (assumption || lia).
  replace (53 + (E - e) + e) with (53 + E) by lia.
  rewrite fexp_canonical by lia.
  rewrite shl_align_ge by lia.
  rewrite Hm, binary_round_aux_exact by (assumption || lia).
  f_equal. lia.
Qed.

Lemma binary_round_left (s : bool) (m q : BinNums.positive) (e E : Z) :
  Zpos (Pos.size q) = 53 -> E <= e -> -1074 <= E <= 971 ->
  Zpos q = Zpos m * 2 ^ (e - E) ->
  binary_round prec emax s m e = S754_finite s q E.
Proof.
  intros Hq HeE HE Hm. unfold binary_round.
  assert (Hs : Zpos (Pos.size m) = 53 - (e - E)).
  { pose proof (size_bounds q) as Hb. rewrite Hq, Hm in Hb.
    change (53 - 1) with 52 in Hb.
    pose proof (pow2_pos (e - E) ltac:(lia)) as Hp.
    assert (Hd : 1 <= 53 - (e - E)).
    { destruct (Z_lt_le_dec (53 - (e - E)) 1) as [Hlt | ]; [exfalso | lia].
      assert (2 ^ 53 <= 2 ^ (e - E)) by (apply Z.pow_le_mono_r; lia).
      nia. }
    apply size_unique; [| exact Hd].
    replace (2 ^ 52) with (2 ^ (53 - (e - E) - 1) * 2 ^ (e - E)) in Hb
      by (rewrite <- Z.pow_add_r by lia; f_equal; lia).
    replace (2 ^ 53) with (2 ^ (53 - (e - E)) * 2 ^ (e - E)) in Hb
      by (rewrite <- Z.pow_add_r by lia; f_equal; lia).
    nia. }
  rewrite digits2_size, Hs.
  replace (53 - (e - E) + e) with (53 + E) by lia.
  rewrite fexp_canonical by lia.
  rewrite shl_align_le by lia. rewrite <- Hm. rewrite Pos2Z.id.
  replace (Zpos q) with (Zpos q * 2 ^ 0) by (rewrite Z.pow_0_r; lia).
  rewrite binary_round_aux_exact by (assumption || lia).
  f_equal. lia.
Qed.



(** *** The counter holds an integer *)

Lemma holds_exists (n : Z) : 1 <= n <= 2 ^ 53 -> exists q E, holds n q E.
Proof.
  intros Hn.
  pose proof (Z.log2_spec n ltac:(lia)) as Hl.
  pose proof (Z.log2_nonneg n) as Hl0.
  assert (Hl53 : Z.log2 n <= 53).
  { rewrite <- (Z.log2_pow2 53) by lia. apply Z.log2_le_mono. lia. }
  set (L := Z.log2 n) in *.
  destruct (Z.eq_dec L 53) as [HL | HL].
  - exists (2 ^ 52)%positive, 1. unfold holds. fold L. rewrite HL in *.
    assert (n = 2 ^ 53) by lia. subst n.
    split; [reflexivity |]. split; [lia |]. reflexivity.
  - assert (Hp : 0 < 2 ^ (52 - L)) by (apply pow2_pos; lia).
    assert (H52 : 2 ^ 52 = 2 ^ L * 2 ^ (52 - L))
      by (rewrite <- Z.pow_add_r by lia; f_equal; lia).
    assert (H53 : 2 ^ 53 = 2 ^ Z.succ L * 2 ^ (52 - L))
      by (rewrite <- Z.pow_add_r by lia; f_equal; lia).
    exists (Z.to_pos (n * 2 ^ (52 - L))), (L - 52). unfold holds. fold L.
    rewrite Z2Pos.id by nia.
    split; [| split; [reflexivity |]].
    + apply size_unique; [| lia]. change (53 - 1) with 52.
      rewrite H52, H53. nia.
    + replace (L - 52 + 52) with L by lia. rewrite H52. ring.
Qed.

Lemma holds_bounds (n : Z) (q : BinNums.positive) (E : Z) :
  1 <= n <= 2 ^ 53 -> holds n q E -> -52 <= E <= 1.
Proof.
  intros Hn (_ & HE & _).
  pose proof (Z.log2_nonneg n).
  assert (Z.log2 n <= 53).
  { rewrite <- (Z.log2_pow2 53) by lia. apply Z.log2_le_mono. lia. }
  lia.
Qed.

Lemma counterAfter_S (n : nat) : counterAfter (S n) = (counterAfter n + 1)%float.
Proof. reflexivity. Qed.

(** Adding one to the double that holds [k < 2^53] gives the double
    that holds [k + 1]. *)
Lemma add_one_holds (k : Z) (q : BinNums.positive) (E : Z) :
  1 <= k < 2 ^ 53 -> holds k q E ->
  exists q' E', holds (k + 1) q' E' /\
    SF64add (S754_finite false q E) (Prim2SF 1%float) = S754_finite false q' E'.
Proof.
  intros Hk Hq.
  pose proof (holds_bounds k q E ltac:(lia) Hq) as HE.
  destruct (holds_exists (k + 1) ltac:(lia)) as (q' & E' & Hq').
  pose proof (holds_bounds (k + 1) q' E' ltac:(lia) Hq') as HE'.
  exists q', E'. split; [exact Hq' |].
  destruct Hq as (Hs & _ & Hv). destruct Hq' as (Hs' & _ & Hv').
  change (Prim2SF 1%float) with (S754_finite false (2 ^ 52)%positive (-52)).
  unfold SF64add, SFadd.
  replace (Z.min E (-52)) with (-52) by lia.
  rewrite (shl_align_le q E (-52)) by lia.
  rewrite (shl_align_le (2 ^ 52) (-52) (-52)) by lia.
  cbn [fst cond_Zopp].
  assert (Hp : 0 < 2 ^ (E + 52)) by (apply pow2_pos; lia).
  rewrite !Z2Pos.id by (try nia; reflexivity).
  replace (E - -52) with (E + 52) by lia. rewrite Hv.
  replace (-52 - -52) with 0 by lia.
  replace (k * 2 ^ 52 + Zpos (2 ^ 52) * 2 ^ 0) with ((k + 1) * 2 ^ 52)
    by (rewrite Z.pow_0_r; change (Zpos (2 ^ 52)) with (2 ^ 52); ring).
  destruct ((k + 1) * 2 ^ 52) as [| m | m] eqn:Hm; try lia.
  cbn [binary_normalize].
  apply binary_round_right; try assumption; try lia.
  replace (E' - -52) with (E' + 52) by lia. lia.
Qed.

Lemma counterAfter_holds (k : nat) :
  1 <= Z.of_nat k <= 2 ^ 53 ->
  exists q E, holds (Z.of_nat k) q E /\
    Prim2SF (counterAfter k) = S754_finite false q E.
Proof.
  induction k as [| k IH]; intros Hk; [lia |].
  destruct k as [| k].
  - exists (2 ^ 52)%positive, (-52). split; [| reflexivity].
    split; [reflexivity |]. split; reflexivity.
  - destruct IH as (q & E & Hq & HP); [lia |].
    destruct (add_one_holds (Z.of_nat (S k)) q E ltac:(lia) Hq) as (q' & E' & Hq' & Hadd).
    exists q', E'. split.
    + replace (Z.of_nat (S (S k))) with (Z.of_nat (S k) + 1) by lia. exact Hq'.
    + rewrite counterAfter_S, add_spec, HP. exact Hadd.
Qed.

(** *** The loop condition *)

(** What the library knows of the mantissa and the exponent of a
    double. *)
Lemma bounded_canonical (m : BinNums.positive) (e : Z) :
  SpecFloat.bounded prec emax m e = true ->
  -1074 <= e <= 971 /\ Zpos (Pos.size m) <= 53 /\ (-1074 < e -> Zpos (Pos.size m) = 53).
Proof.
  unfold SpecFloat.bounded, canonical_mantissa, fexp, emin, prec, emax.
  rewrite digits2_size. intros H. apply andb_prop in H. destruct H as [H1 H2].
  apply Z.eqb_eq in H1. apply Z.leb_le in H2. lia.
Qed.

Lemma pow2_le (a b : Z) : 0 <= a <= b -> 2 ^ a <= 2 ^ b.
Proof. intros. apply Z.pow_le_mono_r; lia. Qed.

Lemma holds_range (n : Z) (q : BinNums.positive) (E : Z) :
  1 <= n -> holds n q E -> 2 ^ (E + 52) <= n < 2 ^ (E + 53).
Proof.
  intros Hn (_ & HE & _). pose proof (Z.log2_spec n ltac:(lia)) as Hl.
  replace (E + 52) with (Z.log2 n) by lia.
  replace (E + 53) with (Z.succ (Z.log2 n)) by lia. exact Hl.
Qed.

Lemma le_shiftl (n : Z) (m : BinNums.positive) (e : Z) :
  (e < 0 -> (n <= Z.shiftl (Zpos m) e <-> n * 2 ^ (- e) <= Zpos m)) /\
  (0 <= e -> (n <= Z.shiftl (Zpos m) e <-> n <= Zpos m * 2 ^ e)).
Proof.
  split; intros He.
  - rewrite Z.shiftl_div_pow2 by lia.
    pose proof (pow2_pos (- e) ltac:(lia)) as Hp.
    split; intros H.
    + pose proof (Z.mul_div_le (Zpos m) (2 ^ (- e)) Hp) as Hd.
      apply Z.le_trans with (2 ^ (- e) * (Zpos m / 2 ^ (- e))); [| exact Hd].
      rewrite (Z.mul_comm n). apply Z.mul_le_mono_nonneg_l; [| exact H].
      apply Z.lt_le_incl. exact Hp.
    + apply Z.div_le_lower_bound; [exact Hp |]. rewrite Z.mul_comm. exact H.
  - rewrite Z.shiftl_mul_pow2 by lia. reflexivity.
Qed.

Lemma holds_le_finite (n : Z) (q : BinNums.positive) (E : Z) (m : BinNums.positive) (e : Z) :
  1 <= n <= 2 ^ 53 -> holds n q E -> SpecFloat.bounded prec emax m e = true ->
  match E ?= e with
  | Lt => true
  | Gt => false
  | Eq => match Pos.compare_cont Eq q m with Gt => false | _ => true end
  end = (n <=? Z.shiftl (Zpos m) e).
Proof.
  intros Hn Hq Hb.
  pose proof (holds_bounds n q E Hn Hq) as HE.
  pose proof (holds_range n q E ltac:(lia) Hq) as Hr.
  destruct Hq as (Hs & _ & Hv).
  apply bounded_canonical in Hb. destruct Hb as (He & Hsm & Hnorm).
  pose proof (size_bounds q) as Hbq. rewrite Hs in Hbq. change (53 - 1) with 52 in Hbq.
  pose proof (size_bounds m) as Hbm.
  assert (Hm53 : Zpos m < 2 ^ 53).
  { eapply Z.lt_le_trans; [apply Hbm |]. apply pow2_le. lia. }
  destruct (le_shiftl n m e) as [Hneg Hpos].
  destruct (Z.compare_spec E e) as [Heq | Hlt | Hgt].
  - (* same exponent: compare the mantissas *)
    subst e. change (Pos.compare_cont Eq q m) with (Pos.compare q m).
    assert (Hiff : (Zpos q <= Zpos m) <-> n <= Z.shiftl (Zpos m) E).
    { destruct (Z_lt_le_dec E 0) as [HE0 | HE0].
      - rewrite (Hneg HE0).
        assert (Zpos q = n * 2 ^ (- E)).
        { assert (H52 : 2 ^ 52 = 2 ^ (E + 52) * 2 ^ (- E))
            by (rewrite <- Z.pow_add_r by lia; f_equal; lia).
          pose proof (pow2_pos (E + 52) ltac:(lia)).
          rewrite H52 in Hv. nia. }
        lia.
      - rewrite (Hpos HE0).
        assert (HE01 : E = 0 \/ E = 1) by lia. destruct HE01; subst E.
        + change (0 + 52) with 52 in Hv. rewrite Z.pow_0_r. lia.
        + change (1 + 52) with 53 in Hv. lia. }
    destruct (Pos.compare_spec q m) as [H | H | H]; symmetry.
    + apply Z.leb_le. apply Hiff. subst. lia.
    + apply Z.leb_le. apply Hiff. lia.
    + apply Z.leb_gt. lia.
  - (* the counter has the smaller exponent *)
    symmetry. apply Z.leb_le.
    assert (Hm52 : 2 ^ 52 <= Zpos m).
    { rewrite Hnorm in Hbm by lia. apply Hbm. }
    destruct (Z_lt_le_dec e 0) as [He0 | He0].
    + apply (Hneg He0).
      assert (2 ^ (E + 53) * 2 ^ (- e) <= 2 ^ 52).
      { rewrite <- Z.pow_add_r by lia. apply pow2_le. lia. }
      pose proof (pow2_pos (- e) ltac:(lia)). nia.
    + apply (Hpos He0).
      assert (2 ^ (E + 53) <= 2 ^ 52 * 2 ^ e).
      { rewrite <- Z.pow_add_r by lia. apply pow2_le. lia. }
      pose proof (pow2_pos e ltac:(lia)). nia.
  - (* the counter has the larger exponent *)
    symmetry. apply Z.leb_gt.
    destruct (Z_lt_le_dec e 0) as [He0 | He0].
    + apply Z.nle_gt. intros H. apply (Hneg He0) in H.
      assert (2 ^ 53 <= 2 ^ (E + 52) * 2 ^ (- e)).
      { rewrite <- Z.pow_add_r by lia. apply pow2_le. lia. }
      pose proof (pow2_pos (- e) ltac:(lia)). nia.
    + apply Z.nle_gt. intros H. apply (Hpos He0) in H.
      assert (e = 0 /\ E = 1) by lia. destruct H0; subst.
      rewrite Z.pow_0_r in H. change (1 + 52) with 53 in Hr. lia.
Qed.

Lemma shiftl_neg (m : BinNums.positive) (e : Z) : Z.shiftl (Zneg m) e < 0.
Proof.
  destruct (Z_lt_le_dec (Z.shiftl (Zneg m) e) 0) as [H | H]; [exact H |].
  apply Z.shiftl_nonneg in H. lia.
Qed.

Lemma shiftl_pos (m : BinNums.positive) (e : Z) : 0 <= Z.shiftl (Zpos m) e.
Proof. apply Z.shiftl_nonneg. lia. Qed.

(** The loop condition [i <= x] for a counter that holds [k]. *)
Lemma counterAfter_leb (k : nat) (x : float) :
  Z.of_nat k <= 2 ^ 53 ->
  (counterAfter k <=? x)%float = leInt (Z.of_nat k) x.
Proof.
  intros Hk. rewrite leb_spec. unfold leInt, floorZ.
  pose proof (Prim2SF_valid x) as Hx.
  destruct k as [| k].
  - change (Prim2SF (counterAfter 0)) with (S754_zero false).
    destruct (Prim2SF x) as [s | s | | s m e]; try reflexivity.
    + destruct s; reflexivity.
    + destruct s; cbn [SFleb SFcompare cond_Zopp]; symmetry.
      * apply Z.leb_gt. apply shiftl_neg.
      * apply Z.leb_le. apply shiftl_pos.
  - destruct (counterAfter_holds (S k) ltac:(lia)) as (q & E & Hq & HP).
    rewrite HP.
    destruct (Prim2SF x) as [s | s | | s m e]; try reflexivity.
    + destruct s; reflexivity.
    + destruct s; cbn [cond_Zopp].
      * cbn [SFleb SFcompare]. symmetry. apply Z.leb_gt.
        apply Z.lt_le_trans with 0; [apply shiftl_neg | lia].
      * rewrite <- (holds_le_finite (Z.of_nat (S k)) q E m e ltac:(lia) Hq Hx).
        cbn [SFleb SFcompare].
        destruct (E ?= e); reflexivity.
Qed.


(** *** The test [i % 4 === 0] *)

(** [i % 4 === 0] for a counter that holds [k]. *)
Lemma counterAfter_rem4 (k : nat) :
  Z.of_nat k <= 2 ^ 53 ->
  remIsZero (counterAfter k) 4%float = (k mod 4 =? 0)%nat.
Proof.
  intros Hk. destruct k as [| k]; [reflexivity |].
  destruct (counterAfter_holds (S k) ltac:(lia)) as (q & E & Hq & HP).
  pose proof (holds_bounds (Z.of_nat (S k)) q E ltac:(lia) Hq) as HE.
  destruct Hq as (_ & _ & Hv).
  unfold remIsZero. rewrite HP.
  change (Prim2SF 4%float) with (S754_finite false (2 ^ 52)%positive (-50)).
  cbv beta iota.
  set (n := Z.of_nat (S k)) in *.
  set (e := Z.min E (-50)).
  assert (He : -52 <= e <= -50) by (unfold e; lia).
  assert (HA : Zpos q * 2 ^ (E - e) = n * 2 ^ (- e)).
  { assert (H1 : 2 ^ (E + 52) = 2 ^ (E - e) * 2 ^ (52 + e))
      by (rewrite <- Z.pow_add_r by lia; f_equal; lia).
    assert (H2 : 2 ^ 52 = 2 ^ (- e) * 2 ^ (52 + e))
      by (rewrite <- Z.pow_add_r by lia; f_equal; lia).
    pose proof (pow2_pos (52 + e) ltac:(lia)) as Hp.
    rewrite H1, H2 in Hv. nia. }
  assert (HB : Zpos (2 ^ 52) * 2 ^ (-50 - e) = 4 * 2 ^ (- e)).
  { change (Zpos (2 ^ 52)) with (2 ^ 50 * 4).
    replace (2 ^ (- e)) with (2 ^ 50 * 2 ^ (-50 - e))
      by (rewrite <- Z.pow_add_r by lia; f_equal; lia).
    ring. }
  rewrite HA, HB.
  pose proof (pow2_pos (- e) ltac:(lia)) as Hp.
  rewrite Z.mul_mod_distr_r by lia.
  assert (Hmod : n mod 4 = Z.of_nat (S k mod 4)).
  { unfold n. rewrite Nat2Z.inj_mod. reflexivity. }
  pose proof (Nat.mod_upper_bound (S k) 4 ltac:(discriminate)) as Hub.
  destruct (Nat.eqb_spec (S k mod 4) 0) as [Hz | Hnz].
  - apply Z.eqb_eq. rewrite Hmod, Hz. reflexivity.
  - apply Z.eqb_neq. rewrite Hmod. nia.
Qed.

(** *** The sign of a rounded product *)

Lemma shr_1_nonneg (r : shr_record) : 0 <= shr_m r -> 0 <= shr_m (shr_1 r).
Proof.
  destruct r as [m r s]. cbn [shr_m]. intros Hm.
  destruct m as [| [p | p |] |]; cbn [shr_1 shr_m]; lia.
Qed.

Lemma shr_fexp_nonneg (m e : Z) (l : location) :
  0 <= m -> 0 <= shr_m (fst (shr_fexp prec emax m e l)).
Proof.
  intros Hm. unfold shr_fexp, shr.
  assert (H0 : 0 <= shr_m (shr_record_of_loc m l)).
  { destruct l as [| []]; exact Hm. }
  destruct (fexp prec emax (Zdigits2 m + e) - e) as [| p | p]; cbn [fst];
    try exact H0.
  rewrite iter_pos_iter. apply Pos.iter_invariant; [| exact H0].
  intros r. apply shr_1_nonneg.
Qed.

Lemma round_nearest_even_nonneg (m : Z) (l : location) :
  0 <= m -> 0 <= round_nearest_even m l.
Proof.
  intros Hm. destruct l as [| []]; cbn [round_nearest_even]; try lia.
  destruct (Z.even m); lia.
Qed.

(** A rounded non-negative mantissa keeps the sign it is given, and is
    not NaN. *)
Lemma binary_round_aux_signed (s : bool) (m e : Z) (l : location) :
  0 <= m -> signed s (binary_round_aux prec emax s m e l).
Proof.
  intros Hm. unfold binary_round_aux.
  pose proof (shr_fexp_nonneg m e l Hm) as H1.
  destruct (shr_fexp prec emax m e l) as [mrs' e'].
  cbn [fst] in H1.
  pose proof (shr_fexp_nonneg _ e' loc_Exact
                (round_nearest_even_nonneg _ (loc_of_shr_record mrs') H1)) as H2.
  destruct (shr_fexp prec emax _ e' loc_Exact) as [mrs'' e''].
  cbn [fst] in H2.
  destruct (shr_m mrs'') as [| p | p]; [reflexivity | | lia].
  destruct (e'' <=? emax - prec); reflexivity.
Qed.

Lemma strictlyPositive_finite (a : number) :
  strictlyPositive a -> exists m e, Prim2SF a = S754_finite false m e.
Proof.
  unfold strictlyPositive. rewrite !ltb_spec.
  change (Prim2SF 0%float) with (S754_zero false).
  change (Prim2SF infinity) with (S754_infinity false).
  destruct (Prim2SF a) as [s | s | | s m e]; intros [H1 H2];
    try discriminate; try (destruct s; discriminate).
  destruct s; [discriminate |]. eauto.
Qed.

(** On a valid configuration [totalPoints] is a zero, a positive
    double or [Infinity]. *)
Lemma totalPoints_valid (c : Config) :
  valid c -> signed false (Prim2SF (totalPoints c)).
Proof.
  intros (Ht & _ & _).
  destruct (strictlyPositive_finite _ Ht) as (m & e & Hm).
  unfold totalPoints, pointsPerTurn. rewrite mul_spec, Hm.
  change (Prim2SF 40%float) with (S754_finite false 5629499534213120 (-47)).
  cbn [SF64mul SFmul xorb]. apply binary_round_aux_signed. lia.
Qed.

(** *** Comparisons *)

Lemma SFcompare_antisym (a b : spec_float) :
  SFcompare b a = option_map CompOpp (SFcompare a b).
Proof.
  destruct a as [sa | sa | | sa ma ea], b as [sb | sb | | sb mb eb];
    try reflexivity; try (destruct sa; reflexivity); try (destruct sb; reflexivity);
    try (destruct sa, sb; reflexivity).
  cbn [SFcompare option_map]. f_equal.
  change (Pos.compare_cont Eq mb ma) with (Pos.compare mb ma).
  change (Pos.compare_cont Eq ma mb) with (Pos.compare ma mb).
  rewrite (Z.compare_antisym ea eb), (Pos.compare_antisym ma mb).
  destruct sa, sb; try reflexivity;
    destruct (ea ?= eb); cbn [CompOpp]; try reflexivity.
Qed.

Lemma ltb_not_leb (a b : float) : (a <? b)%float = true -> (b <=? a)%float = false.
Proof.
  rewrite ltb_spec, leb_spec. unfold SFltb, SFleb.
  rewrite (SFcompare_antisym (Prim2SF a) (Prim2SF b)).
  destruct (SFcompare (Prim2SF a) (Prim2SF b)) as [[| |] |]; cbn; congruence.
Qed.

(** *** The counter is the double of its integer *)

Lemma holds_mantissa (n : Z) (q : BinNums.positive) (E : Z) :
  1 <= n <= 2 ^ 53 -> holds n q E ->
  (E <= 0 -> Zpos q = n * 2 ^ (- E)) /\ (E = 1 -> n = Zpos q * 2).
Proof.
  intros Hn Hq. pose proof (holds_bounds n q E Hn Hq) as HE.
  destruct Hq as (_ & _ & Hv). split; intros H.
  - assert (H52 : 2 ^ 52 = 2 ^ (E + 52) * 2 ^ (- E))
      by (rewrite <- Z.pow_add_r by lia; f_equal; lia).
    pose proof (pow2_pos (E + 52) ltac:(lia)).
    rewrite H52 in Hv. nia.
  - subst E. change (1 + 52) with 53 in Hv. lia.
Qed.

Lemma counterAfter_ofNat (k : nat) :
  Z.of_nat k <= 2 ^ 53 -> counterAfter k = ofNat k.
Proof.
  intros Hk. unfold ofNat. destruct k as [| k]; [reflexivity |].
  destruct (counterAfter_holds (S k) ltac:(lia)) as (q & E & Hq & HP).
  pose proof (holds_bounds (Z.of_nat (S k)) q E ltac:(lia) Hq) as HE.
  destruct (holds_mantissa (Z.of_nat (S k)) q E ltac:(lia) Hq) as [Hl Hr].
  destruct Hq as (Hs & _ & _).
  rewrite <- (SF2Prim_Prim2SF (counterAfter (S k))), HP. f_equal. symmetry.
  destruct (Z.of_nat (S k)) as [| p | p] eqn:Hp; try lia.
  cbn [binary_normalize].
  destruct (Z_le_gt_dec E 0) as [HE0 | HE0].
  - apply binary_round_left; try assumption; try lia.
    rewrite Z.sub_0_l. apply Hl. exact HE0.
  - apply binary_round_right; try assumption; try lia.
    replace (E - 0) with 1 by lia. rewrite (Hr ltac:(lia)). reflexivity.
Qed.

(** *** The loop in closed form *)

Lemma stateAfter64_0 (M : Math.Trig) (c : Config) : stateAfter M c 0 = init.
Proof. reflexivity. Qed.

Lemma push_room {A : Type} (a : list A) (v : A) :
  Z.of_nat (List.length a) < maxArrayLength -> push a v = Return (a ++ [v]).
Proof.
  intros H. unfold push.
  destruct (Z.ltb_spec (Z.of_nat (List.length a)) maxArrayLength); [reflexivity | lia].
Qed.

Lemma push_full {A : Type} (a : list A) (v : A) :
  Z.of_nat (List.length a) = maxArrayLength -> push a v = Throw RangeError.
Proof.
  intros H. unfold push.
  destruct (Z.ltb_spec (Z.of_nat (List.length a)) maxArrayLength); [lia | reflexivity].
Qed.

(** A pass while the arrays have room. *)
Lemma body_stateAfter64 (M : Math.Trig) (c : Config) (n : nat) :
  Z.of_nat n < maxArrayLength ->
  body M c (stateAfter M c n) = Return (stateAfter M c (S n)).
Proof.
  intros Hn. unfold body, stateAfter. cbn [i b1Points b2Points rungData].
  rewrite !push_room by (rewrite length_map, length_seq; exact Hn).
  cbn [bind].
  rewrite seq_S, !map_app, filter_app, map_app. cbn [Nat.add map filter].
  destruct (remIsZero (counterAfter n) 4%float); cbn [map bind].
  - rewrite push_room; [reflexivity |].
    rewrite length_map.
    pose proof (filter_length_le (fun k => remIsZero (counterAfter k) 4%float) (seq 0 n)) as Hl.
    rewrite length_seq in Hl. lia.
  - now rewrite !app_nil_r.
Qed.

(** A pass on full arrays: the first [push] throws. *)
Lemma body_full (M : Math.Trig) (c : Config) (n : nat) :
  Z.of_nat n = maxArrayLength ->
  body M c (stateAfter M c n) = Throw RangeError.
Proof.
  intros Hn. unfold body, stateAfter. cbn [i b1Points b2Points rungData].
  rewrite push_full by (rewrite length_map, length_seq; exact Hn).
  reflexivity.
Qed.

Lemma passes_le (bound : number) (n : nat) :
  passes bound = Some n -> Z.of_nat n <= maxArrayLength.
Proof.
  unfold passes, maxArrayLength.
  destruct (Prim2SF bound) as [s | [|] | | s m e]; intros H;
    try discriminate; try (injection H as <-; lia);
    destruct (Z.ltb_spec (floorZ bound) 0); try (injection H as <-; lia);
    destruct (Z.ltb_spec (floorZ bound) (2 ^ 32 - 1)); try discriminate;
    injection H as <-; lia.
Qed.

(** The loop condition [i <= bound], read against [passes]. *)
Lemma condition_passes64 (bound : number) (n k : nat) :
  passes bound = Some n -> Z.of_nat k <= 2 ^ 53 ->
  (counterAfter k <=? bound)%float = (k <? n)%nat.
Proof.
  intros Hp Hk. rewrite (counterAfter_leb k bound Hk).
  unfold passes, maxArrayLength in Hp. unfold leInt.
  destruct (Prim2SF bound) as [s | [|] | | s m e] eqn:HP;
    try discriminate; try (injection Hp as <-; reflexivity);
    destruct (Z.ltb_spec (floorZ bound) 0);
    try (injection Hp as <-;
         destruct (Z.leb_spec (Z.of_nat k) (floorZ bound)); [lia | reflexivity]);
    destruct (Z.ltb_spec (floorZ bound) (2 ^ 32 - 1)); try discriminate;
    injection Hp as <-;
    destruct (Z.leb_spec (Z.of_nat k) (floorZ bound));
    destruct (Nat.ltb_spec k (Z.to_nat (floorZ bound + 1))); try reflexivity; lia.
Qed.

Lemma condition_holds (bound : number) (k : nat) :
  passes bound = None -> Z.of_nat k <= maxArrayLength ->
  (counterAfter k <=? bound)%float = true.
Proof.
  unfold maxArrayLength. intros Hp Hk.
  rewrite (counterAfter_leb k bound) by lia.
  unfold passes, maxArrayLength in Hp. unfold leInt.
  destruct (Prim2SF bound) as [s | [|] | | s m e] eqn:HP;
    try discriminate; try reflexivity;
    destruct (Z.ltb_spec (floorZ bound) 0); try discriminate;
    destruct (Z.ltb_spec (floorZ bound) (2 ^ 32 - 1)); try discriminate;
    apply Z.leb_le; lia.
Qed.

Lemma loop_from64 (M : Math.Trig) (c : Config) (n : nat) :
  passes (totalPoints c) = Some n ->
  forall (fuel k : nat), (k <= n)%nat -> (n - k < fuel)%nat ->
  loop M c fuel (stateAfter M c k) = Some (Return (stateAfter M c n)).
Proof.
  intros Hn. pose proof (passes_le _ _ Hn) as Hle. unfold maxArrayLength in Hle.
  induction fuel as [| fuel IH]; intros k Hk Hfuel; [lia |].
  cbn [loop]. change (i (stateAfter M c k)) with (counterAfter k).
  rewrite (condition_passes64 _ n k Hn) by lia.
  destruct (Nat.ltb_spec k n) as [Hlt | Hge].
  - rewrite body_stateAfter64 by (unfold maxArrayLength; lia). apply IH; lia.
  - replace k with n by lia. reflexivity.
Qed.

Lemma loop_short (M : Math.Trig) (c : Config) (n : nat) :
  passes (totalPoints c) = Some n ->
  forall (fuel k : nat), (k + fuel <= n)%nat ->
  loop M c fuel (stateAfter M c k) = None.
Proof.
  intros Hn. pose proof (passes_le _ _ Hn) as Hle. unfold maxArrayLength in Hle.
  induction fuel as [| fuel IH]; intros k Hk; [reflexivity |].
  cbn [loop]. change (i (stateAfter M c k)) with (counterAfter k).
  rewrite (condition_passes64 _ n k Hn) by lia.
  destruct (Nat.ltb_spec k n) as [_ | Hbad]; [| lia].
  rewrite body_stateAfter64 by (unfold maxArrayLength; lia). apply IH. lia.
Qed.

(** With a bound the arrays cannot reach, the loop does not end
    normally: it runs out of fuel, or the arrays are full and [push]
    throws. *)
Lemma loop_overflows (M : Math.Trig) (c : Config) :
  passes (totalPoints c) = None ->
  forall (fuel k : nat), Z.of_nat k <= maxArrayLength ->
  loop M c fuel (stateAfter M c k)
  = if (Z.of_nat k + Z.of_nat fuel <=? maxArrayLength) then None
    else Some (Throw RangeError).
Proof.
  intros Hp. induction fuel as [| fuel IH]; intros k Hk.
  - cbn [loop]. destruct (Z.leb_spec (Z.of_nat k + Z.of_nat 0) maxArrayLength);
      [reflexivity | lia].
  - cbn [loop]. change (i (stateAfter M c k)) with (counterAfter k).
    rewrite (condition_holds _ k Hp Hk).
    destruct (Z.eq_dec (Z.of_nat k) maxArrayLength) as [Heq | Hne].
    + rewrite body_full by exact Heq.
      destruct (Z.leb_spec (Z.of_nat k + Z.of_nat (S fuel)) maxArrayLength);
        [lia | reflexivity].
    + rewrite body_stateAfter64 by lia. rewrite IH by lia.
      destruct (Z.leb_spec (Z.of_nat (S k) + Z.of_nat fuel) maxArrayLength);
        destruct (Z.leb_spec (Z.of_nat k + Z.of_nat (S fuel)) maxArrayLength);
        try reflexivity; lia.
Qed.

Lemma build_overflows (M : Math.Trig) (c : Config) (fuel : nat) :
  passes (totalPoints c) = None ->
  build M c fuel
  = if (Z.of_nat fuel <=? maxArrayLength) then None else Some (Throw RangeError).
Proof.
  intros Hp. unfold build. rewrite <- (stateAfter64_0 M c).
  rewrite (loop_overflows M c Hp) by (unfold maxArrayLength; lia).
  cbn [Z.of_nat Z.add].
  destruct (Z.of_nat fuel <=? maxArrayLength); reflexivity.
Qed.

Lemma build_returns64 (M : Math.Trig) (c : Config) (n fuel : nat) :
  passes (totalPoints c) = Some n -> (n < fuel)%nat ->
  build M c fuel = Some (Return (geometryAfter M c n)).
Proof.
  intros Hn Hfuel. unfold build. rewrite <- (stateAfter64_0 M c).
  rewrite (loop_from64 M c n Hn) by lia. reflexivity.
Qed.

Lemma returns_closed_form64 (M : Math.Trig) (c : Config) (g : Geometry) :
  returns M c g <->
  exists n, passes (totalPoints c) = Some n /\ g = geometryAfter M c n.
Proof.
  split.
  - intros [fuel H].
    destruct (passes (totalPoints c)) as [n |] eqn:Hp.
    + exists n. split; [reflexivity |].
      destruct (Nat.lt_ge_cases n fuel) as [Hlt | Hge].
      * rewrite (build_returns64 M c n fuel Hp Hlt) in H. now injection H as <-.
      * unfold build in H. rewrite <- (stateAfter64_0 M c) in H.
        rewrite (loop_short M c n Hp) in H by lia. discriminate.
    + rewrite (build_overflows M c fuel Hp) in H.
      destruct (Z.of_nat fuel <=? maxArrayLength); discriminate.
  - intros [n [Hn ->]]. exists (S n). apply build_returns64; [exact Hn | lia].
Qed.

(** The counter when the arrays are full. *)
Lemma counterAfter_full :
  counterAfter (Z.to_nat maxArrayLength) = 4294967295%float.
Proof.
  rewrite counterAfter_ofNat by (unfold maxArrayLength; lia).
  unfold ofNat. rewrite Z2Nat.id by (unfold maxArrayLength; lia). reflexivity.
Qed.

(** [maxArrayLength <= bound], as the doubles are compared. *)
Lemma full_leb (bound : number) :
  (4294967295 <=? bound)%float = leInt maxArrayLength bound.
Proof.
  rewrite <- counterAfter_full, counterAfter_leb by (unfold maxArrayLength; lia).
  rewrite Z2Nat.id by (unfold maxArrayLength; lia). reflexivity.
Qed.

(** How many passes a valid configuration makes when its arrays do not
    fill up. *)
Lemma passes_valid64 (c : Config) :
  valid c -> (totalPoints c <? 4294967295)%float = true ->
  0 <= floorZ (totalPoints c) /\
  passes (totalPoints c) = Some (Z.to_nat (floorZ (totalPoints c) + 1)).
Proof.
  intros Hv Hlt. pose proof (totalPoints_valid c Hv) as Hs.
  apply ltb_not_leb in Hlt. rewrite full_leb in Hlt.
  unfold leInt in Hlt. unfold passes, floorZ in *.
  destruct (Prim2SF (totalPoints c)) as [s | s | | s m e]; cbn [signed] in Hs;
    try contradiction; subst s.
  - split; [lia | reflexivity].
  - discriminate.
  - cbn [cond_Zopp] in *. pose proof (shiftl_pos m e) as H0.
    apply Z.leb_gt in Hlt. split; [exact H0 |].
    destruct (Z.ltb_spec (Z.shiftl (Zpos m) e) 0); [lia |].
    destruct (Z.ltb_spec (Z.shiftl (Zpos m) e) maxArrayLength); [reflexivity | lia].
Qed.

Lemma returns_valid64 (M : Math.Trig) (c : Config) (g : Geometry) :
  valid c -> (totalPoints c <? 4294967295)%float = true ->
  returns M c g <->
  g = geometryAfter M c (Z.to_nat (floorZ (totalPoints c) + 1)).
Proof.
  intros Hv Hlt. destruct (passes_valid64 c Hv Hlt) as [_ Hp].
  rewrite returns_closed_form64, Hp. split.
  - intros [n [Hn ->]]. now injection Hn as <-.
  - intros ->. eexists. split; reflexivity.
Qed.

Lemma strand1_after64 (M : Math.Trig) (c : Config) (n : nat) :
  strand1 (geometryAfter M c n) = map (fun k => p1 M c (counterAfter k)) (seq 0 n).
Proof. reflexivity. Qed.

Lemma strand2_after64 (M : Math.Trig) (c : Config) (n : nat) :
  strand2 (geometryAfter M c n) = map (fun k => p2 M c (counterAfter k)) (seq 0 n).
Proof. reflexivity. Qed.

Lemma rungs_after64 (M : Math.Trig) (c : Config) (n : nat) :
  Z.of_nat n <= 2 ^ 53 ->
  rungs (geometryAfter M c n) =
  map (fun j => mkRung (p1 M c (counterAfter (4 * j))) (p2 M c (counterAfter (4 * j))))
      (seq 0 ((n + 3) / 4)).
Proof.
  intros Hn. unfold geometryAfter, stateAfter. cbn [rungs rungData].
  rewrite (filter_ext_in (fun k => remIsZero (counterAfter k) 4%float)
                         (fun k => (k mod 4 =? 0)%nat)).
  - rewrite filter_every_fourth, map_map. reflexivity.
  - intros k Hk. apply in_seq in Hk. apply counterAfter_rem4. lia.
Qed.

(* ------------------------------------------------------------------ *)
(** *** Counting the samples and the rungs *)

(** C2 (point count), amended.  On a valid configuration whose product
    [turns * 40], as the double multiplication rounds it, is below
    [2^32 - 1], the builder returns, and the two strands it returns have
    the same number of points: the floor of that product, plus one. *)
Theorem C2_point_count (M : Math.Trig) (c : Config) :
  valid c -> (totalPoints c <? 4294967295)%float = true ->
  (exists g, returns M c g) /\
  forall g, returns M c g ->
    List.length (strand1 g) = List.length (strand2 g) /\
    Z.of_nat (List.length (strand1 g)) = floorZ (totalPoints c) + 1.
Proof.
  intros Hv Hlt. destruct (passes_valid64 c Hv Hlt) as [H0 Hp]. split.
  - eexists. apply (returns_valid64 M c _ Hv Hlt). reflexivity.
  - intros g Hg. apply (returns_valid64 M c g Hv Hlt) in Hg. subst g.
    rewrite strand1_after64, strand2_after64, !length_map, !length_seq.
    split; [reflexivity | lia].
Qed.

Lemma C2_point_count_witness :
  (exists g, returns reference (mkConfig 3 3 35) g) /\
  forall g, returns reference (mkConfig 3 3 35) g ->
    List.length (strand1 g) = List.length (strand2 g) /\
    Z.of_nat (List.length (strand1 g)) = floorZ (totalPoints (mkConfig 3 3 35)) + 1.
Proof.
  apply (C2_point_count reference (mkConfig 3 3 35)).
  - repeat split; reflexivity.
  - reflexivity.
Defined.

(** C2, the claim as stated, refuted: [{turns: 2^1020, radius: 1,
    height: 1}] is a valid configuration, its loop bound [turns * 40]
    overflows to [Infinity], and the builder returns no strands at all:
    whatever fuel it is given it is still running, or it has thrown the
    RangeError of a [push] on a full array. *)
Lemma C2_arrays_overflow :
  valid (mkConfig 0x1p1020 1 1) /\
  totalPoints (mkConfig 0x1p1020 1 1) = infinity /\
  forall (M : Math.Trig) (fuel : nat),
    build M (mkConfig 0x1p1020 1 1) fuel
    = if (Z.of_nat fuel <=? maxArrayLength) then None else Some (Throw RangeError).
Proof.
  split; [repeat split; reflexivity |]. split; [reflexivity |].
  intros M fuel. apply build_overflows. reflexivity.
Qed.

(** C4 (rungs), amended.  On a valid configuration whose
    [totalPoints = turns * 40], as rounded, is below [2^32 - 1], the builder
    returns a geometry with [floor (totalPoints / 4) + 1] rungs; rung
    number [j] joins sample [4 * j] of strand 1 to sample [4 * j] of
    strand 2, and there is a rung for every multiple of four that is a
    sample index.  (The floor of a quarter of [totalPoints] is the
    integer quotient by four of its floor.) *)
Theorem C4_rungs (M : Math.Trig) (c : Config) :
  valid c -> (totalPoints c <? 4294967295)%float = true ->
  (exists g, returns M c g) /\
  forall g,
    returns M c g ->
    Z.of_nat (List.length (rungs g)) = floorZ (totalPoints c) / 4 + 1 /\
    forall j,
      nth_error (rungs g) j =
      match nth_error (strand1 g) (4 * j), nth_error (strand2 g) (4 * j) with
      | Some a, Some b => Some (mkRung a b)
      | _, _ => None
      end.
Proof.
  intros Hv Hlt. destruct (passes_valid64 c Hv Hlt) as [H0 Hp]. split.
  - eexists. apply (returns_valid64 M c _ Hv Hlt). reflexivity.
  - intros g Hg. apply (returns_valid64 M c g Hv Hlt) in Hg. subst g.
    pose proof (passes_le _ _ Hp) as Hle. unfold maxArrayLength in Hle.
    set (F := floorZ (totalPoints c)) in *.
    rewrite rungs_after64, strand1_after64, strand2_after64 by lia.
    replace (Z.to_nat (F + 1)) with (S (Z.to_nat F)) by lia.
    set (n := Z.to_nat F).
    assert (Hm : ((S n + 3) / 4 = S (n / 4))%nat).
    { euclid4 n. euclid4 (S n + 3)%nat. lia. }
    split.
    + rewrite length_map, length_seq, Hm, Nat2Z.inj_succ, Nat2Z.inj_div.
      unfold n. rewrite Z2Nat.id by exact H0. reflexivity.
    + intros j. rewrite !nth_error_map_seq.
      euclid4 n.
      destruct (Nat.ltb_spec j ((S n + 3) / 4)) as [Hj | Hj];
        destruct (Nat.ltb_spec (4 * j) (S n)) as [Hj' | Hj'];
        try reflexivity; lia.
Qed.

Lemma C4_rungs_witness :
  (exists g, returns reference (mkConfig 3 3 35) g) /\
  forall g,
    returns reference (mkConfig 3 3 35) g ->
    Z.of_nat (List.length (rungs g)) = floorZ (totalPoints (mkConfig 3 3 35)) / 4 + 1 /\
    forall j,
      nth_error (rungs g) j =
      match nth_error (strand1 g) (4 * j), nth_error (strand2 g) (4 * j) with
      | Some a, Some b => Some (mkRung a b)
      | _, _ => None
      end.
Proof.
  apply (C4_rungs reference (mkConfig 3 3 35)).
  - repeat split; reflexivity.
  - reflexivity.
Defined.

(** C4, the claim as stated, refuted: on the valid configuration
    [{turns: 2^27, radius: 1, height: 1}] the bound [totalPoints] is
    [5 * 2^30], more than an array can hold: the builder returns no
    rungs at all, whatever fuel it is given. *)
Lemma C4_no_rungs_on_full_arrays :
  valid (mkConfig 134217728 1 1) /\
  totalPoints (mkConfig 134217728 1 1) = 5368709120%float /\
  forall (M : Math.Trig) (fuel : nat),
    build M (mkConfig 134217728 1 1) fuel
    = if (Z.of_nat fuel <=? maxArrayLength) then None else Some (Throw RangeError).
Proof.
  split; [repeat split; reflexivity |]. split; [reflexivity |].
  intros M fuel. apply build_overflows. reflexivity.
Qed.

(* ------------------------------------------------------------------ *)
(** *** The counter is the sample index *)

(** Every sample of a returned geometry, by its index. *)
Lemma samples_after (M : Math.Trig) (c : Config) (g : Geometry) :
  returns M c g ->
  exists n,
    Z.of_nat n <= 2 ^ 53 /\
    strand1 g = map (fun k => p1 M c (ofNat k)) (seq 0 n) /\
    strand2 g = map (fun k => p2 M c (ofNat k)) (seq 0 n) /\
    rungs g = map (fun j => mkRung (p1 M c (ofNat (4 * j))) (p2 M c (ofNat (4 * j))))
                  (seq 0 ((n + 3) / 4)).
Proof.
  intros Hg. apply returns_closed_form64 in Hg. destruct Hg as (n & Hp & ->).
  pose proof (passes_le _ _ Hp) as Hn. unfold maxArrayLength in Hn.
  exists n. split; [lia |].
  assert (Hn' : Z.of_nat n <= 2 ^ 53) by lia.
  rewrite strand1_after64, strand2_after64, rungs_after64 by exact Hn'.
  split; [| split]; apply map_ext_in; intros k Hk; apply in_seq in Hk;
    rewrite counterAfter_ofNat; try reflexivity.
  - lia.
  - lia.
  - euclid4 (n + 3)%nat. lia.
Qed.

(* ------------------------------------------------------------------ *)
(** *** The two strands, sample by sample *)




(* ------------------------------------------------------------------ *)
(** *** The rungs and their meshes *)

Lemma finite_cases (a : number) :
  finite a = true ->
  (exists s, Prim2SF a = S754_zero s) \/ (exists s m e, Prim2SF a = S754_finite s m e).
Proof.
  unfold finite. rewrite ltb_spec, abs_spec.
  change (Prim2SF infinity) with (S754_infinity false).
  destruct (Prim2SF a) as [s | s | | s m e]; intros H; try discriminate; eauto.
Qed.






(* ------------------------------------------------------------------ *)
(** *** When the builder returns *)

(** X1 (when the builder returns).  The builder returns a geometry
    exactly when [2^32 - 1 <= totalPoints] is false: a bound below the
    largest length of an array ends the loop, as does NaN, and with any
    other bound, [Infinity] included, the arrays fill up first and the
    builder throws the RangeError of [push], once it has had the fuel
    for [2^32] passes. *)
Theorem builder_returns_iff (M : Math.Trig) (c : Config) :
  ((exists g, returns M c g) <-> (4294967295 <=? totalPoints c)%float = false) /\
  ((4294967295 <=? totalPoints c)%float = true ->
   forall fuel, maxArrayLength < Z.of_nat fuel ->
     build M c fuel = Some (Throw RangeError)).
Proof.
  rewrite full_leb.
  assert (Hp : (exists n, passes (totalPoints c) = Some n) <->
               leInt maxArrayLength (totalPoints c) = false).
  { unfold passes, leInt, floorZ.
    destruct (Prim2SF (totalPoints c)) as [s | [|] | | s m e].
    - split; [reflexivity |]. intros _. eexists. reflexivity.
    - split; [reflexivity |]. intros _. eexists. reflexivity.
    - split; [intros [n H]; discriminate | discriminate].
    - split; [reflexivity |]. intros _. eexists. reflexivity.
    - destruct (Z.ltb_spec (Z.shiftl (cond_Zopp s (Zpos m)) e) 0).
      + split; [intros _; apply Z.leb_gt; unfold maxArrayLength; lia |].
        intros _. eexists. reflexivity.
      + destruct (Z.ltb_spec (Z.shiftl (cond_Zopp s (Zpos m)) e) maxArrayLength).
        * split; [intros _; apply Z.leb_gt; lia |]. intros _. eexists. reflexivity.
        * split; [intros [n Hn]; discriminate |].
          intros Hf. apply Z.leb_gt in Hf. lia. }
  split.
  - rewrite <- Hp. split.
    + intros [g Hg]. apply returns_closed_form64 in Hg.
      destruct Hg as (n & Hn & _). eauto.
    + intros [n Hn]. exists (geometryAfter M c n).
      apply returns_closed_form64. eauto.
  - intros Hfull fuel Hfuel.
    destruct (passes (totalPoints c)) as [n |] eqn:Hn.
    + assert (Hf : leInt maxArrayLength (totalPoints c) = false)
        by (apply Hp; eauto).
      congruence.
    + rewrite (build_overflows M c fuel Hn).
      destruct (Z.leb_spec (Z.of_nat fuel) maxArrayLength); [lia | reflexivity].
Qed.

(** X19 (the loop bound is a rounded product).  [0.7 * 40] is [28] as
    doubles, not a little less: the builder returns 29 samples on each
    strand and 8 rungs. *)
Example rounded_product :
  totalPoints (mkConfig 0.7 3 35) = 28%float /\
  forall (M : Math.Trig) (g : Geometry),
    returns M (mkConfig 0.7 3 35) g ->
    List.length (strand1 g) = 29%nat /\ List.length (rungs g) = 8%nat.
Proof.
  split; [reflexivity |]. intros M g Hg.
  apply returns_valid64 in Hg; [| repeat split; reflexivity | reflexivity].
  subst g. rewrite strand1_after64, rungs_after64, !length_map, !length_seq.
  - split; reflexivity.
  - change (Z.of_nat (Z.to_nat (floorZ (totalPoints (mkConfig 0.7 3 35)) + 1)))
      with 29. lia.
Qed.

(** X22 (the first sample is at [-height / 2]).  When the height step
    is finite and half the height is a positive finite double, the
    first sample of each strand of a returned geometry is at the
    opposite of that half, exactly: [0 * heightStep] is a zero, and a
    zero minus a double is its opposite. *)
Theorem first_sample_height (M : Math.Trig) (c : Config) (g : Geometry)
    (p q : Vector3) :
  finite (heightStep c) = true -> strictlyPositive (height c / 2)%float ->
  returns M c g ->
  nth_error (strand1 g) 0 = Some p -> nth_error (strand2 g) 0 = Some q ->
  y p = (- (height c / 2))%float /\ y q = (- (height c / 2))%float.
Proof.
  intros Hs Hh Hg Hp Hq.
  assert (Hy : yAt c 0%float = (- (height c / 2))%float).
  { unfold yAt. apply Prim2SF_inj. rewrite sub_spec, mul_spec, opp_spec.
    change (Prim2SF 0%float) with (S754_zero false).
    destruct (strictlyPositive_finite _ Hh) as (m & e & ->).
    destruct (finite_cases _ Hs) as [[s ->] | (s & m' & e' & ->)]; reflexivity. }
  destruct (samples_after M c g Hg) as (n & _ & H1 & H2 & _).
  rewrite H1, nth_error_map_seq in Hp. rewrite H2, nth_error_map_seq in Hq.
  destruct (0 <? n)%nat; [| discriminate].
  injection Hp as <-. injection Hq as <-.
  change (ofNat 0) with 0%float. cbn [y p1 p2]. auto.
Qed.

Lemma first_sample_height_witness :
  y (mkVector3 3 (-17.5) 0) = (- (35 / 2))%float /\
  y (mkVector3 (-3) (-17.5) 3.6739403974420594e-16) = (- (35 / 2))%float.
Proof.
  apply (first_sample_height reference oneSample
           (mkGeometry (mkCatmullRomCurve3 [mkVector3 3 (-17.5) 0])
                       (mkCatmullRomCurve3 [mkVector3 (-3) (-17.5) 3.6739403974420594e-16])
                       [mkRung (mkVector3 3 (-17.5) 0)
                               (mkVector3 (-3) (-17.5) 3.6739403974420594e-16)])).
  - reflexivity.
  - split; reflexivity.
  - exists 2%nat. reflexivity.
  - reflexivity.
  - reflexivity.
Defined.

(** X23 (the heights of the helix on the page).  With [turns = 3],
    [radius = 3] and [height = 35] each strand has 121 samples; their
    heights, as the doubles the loop computes, are strictly increasing,
    from [-17.5] to [17.5]. *)
Example callSite_heights :
  increasing (map (fun k => yAt (mkConfig 3 3 35) (ofNat k)) (seq 0 121)) = true /\
  yAt (mkConfig 3 3 35) (ofNat 0) = (-17.5)%float /\
  yAt (mkConfig 3 3 35) (ofNat 120) = 17.5%float /\
  forall (M : Math.Trig) (g : Geometry),
    returns M (mkConfig 3 3 35) g ->
    map y (strand1 g) = map (fun k => yAt (mkConfig 3 3 35) (ofNat k)) (seq 0 121) /\
    map y (strand2 g) = map (fun k => yAt (mkConfig 3 3 35) (ofNat k)) (seq 0 121).
Proof.
  split; [vm_compute; reflexivity |]. split; [reflexivity |]. split; [reflexivity |].
  intros M g Hg. destruct (samples_after M _ g Hg) as (n & _ & H1 & H2 & _).
  assert (Hn : n = 121%nat).
  { apply returns_valid64 in Hg; [| repeat split; reflexivity | reflexivity].
    apply (f_equal (fun g => List.length (strand1 g))) in Hg.
    rewrite H1, strand1_after64, !length_map, !length_seq in Hg. exact Hg. }
  subst n. rewrite H1, H2, !map_map. split; reflexivity.
Qed.

(** X20 (the last sample can be above [height / 2]).  With
    [turns = 0.625] and [height = 7] the bound is [25] and the height
    step [0.28]; the product [25 * 0.28] is rounded up, and the last of
    the 26 samples is at [3.500000000000001], above [3.5]. *)
Example last_sample_above_top :
  (7 / 2 <? 3.5000000000000009)%float = true /\
  forall (M : Math.Trig) (g : Geometry),
    returns M (mkConfig 0.625 1 7) g ->
    List.length (strand1 g) = 26%nat /\
    option_map y (nth_error (strand1 g) 25) = Some 3.5000000000000009%float.
Proof.
  split; [reflexivity |]. intros M g Hg.
  apply returns_valid64 in Hg; [| repeat split; reflexivity | reflexivity].
  subst g. rewrite strand1_after64.
  change (Z.to_nat (floorZ (totalPoints (mkConfig 0.625 1 7)) + 1)) with 26%nat.
  rewrite length_map, length_seq, nth_error_map_seq. split; [reflexivity |].
  cbn [Nat.ltb Nat.leb option_map y p1]. f_equal.
Qed.

End Binary64Facts.

Section Rotator64Facts.

Import Binary64 Binary64.THREE Binary64.Rotator.

Variable Children : Type.




End Rotator64Facts.


(* ================================================================== *)
(** ** The text of the footer *)
(* ================================================================== *)

(** What the footer reads once the frame has come. *)
Lemma footer_shows (toStringLarge : R -> string) (start finish : Binary64.number)
    (d : R) :
  Binary64.toNumber (finish - start)%float = Num d -> 0 <= d < 10 ^ 21 ->
  FooterRenderTime.text (FooterRenderTime.onAnimationFrame toStringLarge start finish)
  = ("RENDER_TIME: " ++ Str.toFixed2 toStringLarge (Num d) ++ "ms")%string.
Proof.
  intros Hd Hx. unfold FooterRenderTime.text, FooterRenderTime.onAnimationFrame.
  rewrite Hd, (toFixed2_small toStringLarge d Hx).
  rewrite truthy_append_r; [reflexivity |]. reflexivity.
Qed.

(** X17 (the text of the footer).  Before the animation frame the footer
    reads [RENDER_TIME: —].  Once the frame has come, with [d] the value
    of the rounded difference of the two readings and [0 <= d < 10^21],
    it reads [d] with two decimals followed by [ms], and never the dash
    again: the state holds a text, which is truthy even when the time is
    zero. *)
Theorem footer_text (toStringLarge : R -> string) (start finish : Binary64.number)
    (d : R) :
  Binary64.toNumber (finish - start)%float = Num d -> 0 <= d < 10 ^ 21 ->
  FooterRenderTime.text FooterRenderTime.initialRenderTime
  = "RENDER_TIME: —"%string /\
  FooterRenderTime.text (FooterRenderTime.onAnimationFrame toStringLarge start finish)
  = ("RENDER_TIME: " ++ Str.toFixed2 toStringLarge (Num d) ++ "ms")%string /\
  (d = 0 ->
   FooterRenderTime.text (FooterRenderTime.onAnimationFrame toStringLarge start finish)
   = "RENDER_TIME: 0.00ms"%string).
Proof.
  intros Hd Hx. split; [reflexivity |].
  split; [exact (footer_shows toStringLarge start finish d Hd Hx) |].
  intros ->. rewrite (footer_shows toStringLarge start finish 0 Hd Hx).
  destruct (toFixed2_examples toStringLarge) as [-> _]. reflexivity.
Qed.

Lemma footer_text_witness :
  FooterRenderTime.text FooterRenderTime.initialRenderTime
  = "RENDER_TIME: —"%string /\
  FooterRenderTime.text
    (FooterRenderTime.onAnimationFrame (fun _ => EmptyString) 100%float 250%float)
  = ("RENDER_TIME: " ++ Str.toFixed2 (fun _ => EmptyString) (Num 150) ++ "ms")%string /\
  (150 = 0 ->
   FooterRenderTime.text
     (FooterRenderTime.onAnimationFrame (fun _ => EmptyString) 100%float 250%float)
   = "RENDER_TIME: 0.00ms"%string).
Proof.
  apply (footer_text (fun _ => EmptyString) 100%float 250%float 150).
  - unfold Binary64.toNumber.
    change (Prim2SF (250 - 100)%float)
      with (S754_finite false 5277655813324800 (-45)).
    cbn [cond_Zopp powerRZ]. f_equal. simpl. lra.
  - split; [lra |]. cbn [pow]. lra.
Defined.

(** X21 (the printed time is that of the rounded difference).  The
    readings [10.035] and [150.66] are [140.625] apart as doubles, and
    the footer shows [140.63]. *)
Example footer_prints_the_rounded_difference (toStringLarge : R -> string) :
  (150.66 - 10.035 = 140.625)%float /\
  FooterRenderTime.text
    (FooterRenderTime.onAnimationFrame toStringLarge 10.035%float 150.66%float)
  = "RENDER_TIME: 140.63ms"%string.
Proof.
  split; [reflexivity |].
  assert (Hd : Binary64.toNumber (150.66 - 10.035)%float = Num (1125 / 8)).
  { unfold Binary64.toNumber.
    change (Prim2SF (150.66 - 10.035)%float)
      with (S754_finite false 4947802324992000 (-45)).
    cbn [cond_Zopp powerRZ]. f_equal. simpl. lra. }
  assert (Hx : 0 <= 1125 / 8 < 10 ^ 21) by (split; [lra | cbn [pow]; lra]).
  rewrite (footer_shows toStringLarge 10.035%float 150.66%float (1125 / 8) Hd Hx).
  rewrite (toFixed2_small toStringLarge (1125 / 8) Hx).
  unfold floorNat. replace (Int_part (1125 / 8 * 100 + / 2)) with 14063%Z;
    [reflexivity |].
  apply Int_part_spec. lra.
Qed.
